(** * Speech-to-text backend: a model of [src/main.py]

    The service is three FastAPI handlers over two external libraries
    (Whisper and the Anthropic client), the process environment, and the
    file system.  Handlers are embedded as computations in a state and
    exception monad over a [World]; the external libraries are the fields of
    a [Platform]; every call that leaves the process is recorded in a trace.
*)

From Stdlib Require Import ZArith String Ascii List.
From stdpp Require Import base option list gmap strings pretty.

Local Open Scope Z_scope.
Local Open Scope string_scope.
Local Open Scope list_scope.

(** ** Python values and exceptions *)

Abbreviation bytes := (list Byte.byte).

(** Every exception below derives from Python's [Exception], so each is
    caught by an [except Exception] clause. *)
Inductive exn :=
| HTTPException (status_code : Z) (detail : string)
| OSError (errno : Z) (strerror : string) (filename : option string)
| KeyError (key : string)
| IndexError (msg : string)
| AttributeError (msg : string)
| LibraryError (msg : string).  (* raised inside whisper or anthropic; [msg] is its str() *)

Inductive outcome (A : Type) :=
| Returned (a : A)
| Raised (e : exn).
Arguments Returned {A} a.
Arguments Raised {A} e.

Definition is_returned {A} (r : outcome A) : bool :=
  match r with Returned _ => true | Raised _ => false end.

(** The single ASCII line feed, Python's ["\n"]. *)
Definition nl : string := String (ascii_of_nat 10) EmptyString.

(** Python truthiness of a [str] and of an [Optional[str]]. *)
Definition str_truthy (s : string) : bool :=
  match s with EmptyString => false | String _ _ => true end.

Definition opt_truthy (o : option string) : bool :=
  match o with None => false | Some s => str_truthy s end.

(** [a or b] on strings. *)
Definition str_or (a b : string) : string := if str_truthy a then a else b.

(** [s.split(sep)] for a one-character separator: the pieces between the
    separators, in order; never the empty list. *)
Fixpoint str_split (sep : ascii) (s : string) : list string :=
  match s with
  | EmptyString => [EmptyString]
  | String a rest =>
      if Ascii.eqb a sep
      then EmptyString :: str_split sep rest
      else match str_split sep rest with
           | piece :: pieces => String a piece :: pieces
           | [] => [String a EmptyString]
           end
  end.

(** The module-level [ALLOWED_ORIGINS], read from the environment at import. *)
Definition ALLOWED_ORIGINS (env : gmap string string) : list string :=
  str_split ","
    (default "http://localhost:5173,https://speechtotext07.netlify.app"
       (env !! "ALLOWED_ORIGINS")).

(** ** Data exchanged with the libraries and the clients *)

(** [UploadFile]: only the two attributes the handler reads. *)
Record UploadFile := {
  filename : option string;
  file_content : bytes;
}.

(** One entry of the [messages] argument of [client.messages.create]. *)
Record chat_message := {
  role : string;
  content : string;
}.

(** The keyword arguments of [client.messages.create]. *)
Record api_call := {
  model : string;
  max_tokens : Z;
  messages : list chat_message;
}.

(** A content block of the reply: only text blocks have a [text] attribute. *)
Inductive content_block :=
| TextBlock (text : string)
| OtherBlock (type_name : string).

Record Message := {
  message_content : list content_block;
}.

(** The client object of [anthropic.Anthropic(api_key=...)]. *)
Record Anthropic := {
  api_key : string;
}.

Record EnhanceRequest := {
  text : string;
  task : string;
}.

(** The JSON bodies of the three POST endpoints and of [GET /]. *)
Record TranscribeResponse := {
  tr_success : bool;
  tr_text : string;
  tr_language : string;
}.

Record EnhanceResponse := {
  en_success : bool;
  en_original : string;
  en_enhanced : string;
  en_task : string;
}.

Record CombinedResponse := {
  co_success : bool;
  co_raw_transcription : string;
  co_enhanced_text : string;
  co_language : string;
  co_task : string;
}.

Record RootResponse := {
  ro_message : string;
  ro_status : string;
}.

(** ** Calls that leave the process *)

Inductive event :=
| EvLoadModel (name : string) (loaded : bool)   (* whisper.load_model(name) *)
| EvTranscribe (path : string)                  (* model.transcribe(path) *)
| EvMessagesCreate (call : api_call)            (* client.messages.create(...) *)
| EvUnlink (path : string) (removed : bool).    (* os.unlink(path) *)

(** ** Reading the trace *)

Definition is_load (ev : event) : bool :=
  match ev with EvLoadModel _ _ => true | _ => false end.

Definition is_completed_load (ev : event) : bool :=
  match ev with EvLoadModel _ true => true | _ => false end.

Definition is_network_call (ev : event) : bool :=
  match ev with EvMessagesCreate _ => true | _ => false end.

(** Invocations of [whisper.load_model]. *)
Definition load_calls (tr : list event) : list event := List.filter is_load tr.

(** Loads that completed, that is, returned a model. *)
Definition model_loads (tr : list event) : nat :=
  length (List.filter is_completed_load tr).

Definition network_calls (tr : list event) : list event :=
  List.filter is_network_call tr.

(** ** The platform: everything [main.py] imports

    [Ext] is whatever state the outside world keeps (model cache, network,
    the remote service); every library call may read and change it, so no
    determinism of the libraries is assumed. *)
Class Platform := {
  Model : Type;
  Ext : Type;
  (* whisper.load_model *)
  whisper_load_model : string → Ext → outcome Model * Ext;
  (* Whisper.transcribe: reads the file system, returns a dict *)
  whisper_transcribe :
    Model → string → gmap string bytes → Ext → outcome (gmap string string) * Ext;
  (* anthropic: client.messages.create *)
  anthropic_messages_create : Anthropic → api_call → Ext → outcome Message * Ext;
  (* os.path.splitext *)
  os_path_splitext : string → string * string;
  (* tempfile: the n-th candidate path for a suffix *)
  tempfile_candidate : nat → string → string;
  (* tempfile.TMP_MAX: os.TMP_MAX where the OS defines it, else 10000 *)
  tempfile_TMP_MAX : nat;
  (* str() of the framework's HTTPException *)
  HTTPException_str : Z → string → string;
}.

Section Service.
Context `{Platform}.

(** str(e), as the handlers interpolate it into their [detail] strings.
    Python writes the file name of an [OSError] and the key of a [KeyError]
    with repr(); for names and keys of printable characters without quote
    or backslash, the only ones used below, that is the text between single
    quotes. *)
Definition str_exn (e : exn) : string :=
  match e with
  | HTTPException c d => HTTPException_str c d
  | OSError n s None => "[Errno " +:+ pretty n +:+ "] " +:+ s
  | OSError n s (Some f) => "[Errno " +:+ pretty n +:+ "] " +:+ s +:+ ": '" +:+ f +:+ "'"
  | KeyError k => "'" +:+ k +:+ "'"
  | IndexError m => m
  | AttributeError m => m
  | LibraryError m => m
  end.

(** ** The world a handler runs in *)

Record World := {
  environ : gmap string string;      (* os.environ *)
  files : gmap string bytes;         (* the disk: path to contents *)
  locked : gset string;              (* paths the OS refuses to unlink *)
  free_space : nat;                  (* bytes left on the device *)
  names_drawn : nat;                 (* position in tempfile's name generator *)
  whisper_model : option Model;      (* the module-level global *)
  ext : Ext;
  trace : list event;
}.

Definition set_disk (fs : gmap string bytes) (free : nat) (w : World) : World :=
  {| environ := environ w; files := fs; locked := locked w; free_space := free;
     names_drawn := names_drawn w; whisper_model := whisper_model w;
     ext := ext w; trace := trace w |}.

Definition set_names_drawn (n : nat) (w : World) : World :=
  {| environ := environ w; files := files w; locked := locked w;
     free_space := free_space w; names_drawn := n;
     whisper_model := whisper_model w; ext := ext w; trace := trace w |}.

Definition set_whisper_model (m : option Model) (w : World) : World :=
  {| environ := environ w; files := files w; locked := locked w;
     free_space := free_space w; names_drawn := names_drawn w;
     whisper_model := m; ext := ext w; trace := trace w |}.

(** A library call: the outside state moves on and the call is recorded. *)
Definition external (x : Ext) (ev : event) (w : World) : World :=
  {| environ := environ w; files := files w; locked := locked w;
     free_space := free_space w; names_drawn := names_drawn w;
     whisper_model := whisper_model w; ext := x; trace := trace w ++ [ev] |}.

Definition record_event (ev : event) (w : World) : World :=
  external (ext w) ev w.

(** ** State and exception monad *)

Definition M (A : Type) : Type := World → outcome A * World.

Definition ret {A} (a : A) : M A := λ w, (Returned a, w).

Definition raise {A} (e : exn) : M A := λ w, (Raised e, w).

Definition bind {A B} (c : M A) (k : A → M B) : M B :=
  λ w, match c w with
       | (Returned a, w1) => k a w1
       | (Raised e, w1) => (Raised e, w1)
       end.

(** [try: body  except Exception as e: handler e] *)
Definition try_except {A} (body : M A) (handler : exn → M A) : M A :=
  λ w, match body w with
       | (Returned a, w1) => (Returned a, w1)
       | (Raised e, w1) => handler e w1
       end.

(** [try: body  finally: cleanup].  The cleanup always runs; when it raises,
    its exception replaces the pending return value or exception. *)
Definition try_finally {A} (body : M A) (cleanup : M unit) : M A :=
  λ w, let '(r, w1) := body w in
       match cleanup w1 with
       | (Returned _, w2) => (r, w2)
       | (Raised e, w2) => (Raised e, w2)
       end.

#[global] Instance M_ret : MRet M := @ret.
#[global] Instance M_bind : MBind M := λ A B k c, bind c k.
#[global] Instance M_fmap : FMap M := λ A B f c, bind c (λ a, ret (f a)).

(** ** Environment, dicts and lists *)

(** [os.getenv(key)] *)
Definition os_getenv (key : string) : M (option string) :=
  λ w, (Returned (environ w !! key), w).

(** [os.getenv(key, default)] *)
Definition os_getenv_default (key dflt : string) : M string :=
  λ w, (Returned (default dflt (environ w !! key)), w).

(** [d[key]] *)
Definition dict_getitem (d : gmap string string) (key : string) : M string :=
  match d !! key with
  | Some v => ret v
  | None => raise (KeyError key)
  end.

(** [d.get(key, default)] *)
Definition dict_get (d : gmap string string) (key dflt : string) : string :=
  default dflt (d !! key).

(** [l[i]] for a non-negative index *)
Definition list_getitem {A} (l : list A) (i : nat) : M A :=
  match l !! i with
  | Some v => ret v
  | None => raise (IndexError "list index out of range")
  end.

(** [block.text] *)
Definition block_text (b : content_block) : M string :=
  match b with
  | TextBlock t => ret t
  | OtherBlock ty =>
      raise (AttributeError ("'" +:+ ty +:+ "' object has no attribute 'text'"))
  end.

(** ** The file system *)

(** tempfile.TMP_MAX, the number of names tried *)
Definition TMP_MAX : nat := tempfile_TMP_MAX.

(** tempfile's search for an unused name: at most [tries] candidates. *)
Fixpoint unused_name (tries : nat) (suffix : string) (seq : nat)
    (fs : gmap string bytes) : option (string * nat) :=
  match tries with
  | O => None
  | S n =>
      let name := tempfile_candidate seq suffix in
      match fs !! name with
      | None => Some (name, S seq)
      | Some _ => unused_name n suffix (S seq) fs
      end
  end.

(** [tempfile.NamedTemporaryFile(delete=False, suffix=suffix)]: creates an
    empty file and yields its path ([tmp.name]).  A suffix the OS refuses
    (a NUL byte, a name too long) makes the real call raise before any
    file exists; such suffixes are outside this model. *)
Definition NamedTemporaryFile (suffix : string) : M string :=
  λ w, match unused_name TMP_MAX suffix (names_drawn w) (files w) with
       | Some (name, seq) =>
           (Returned name,
            set_names_drawn seq (set_disk (<[name := []]> (files w)) (free_space w) w))
       | None =>
           (Raised (OSError 17 "No usable temporary file name found" None),
            set_names_drawn (names_drawn w + TMP_MAX)%nat w)
       end.

(** [tmp.write(content)] on the open temporary file. *)
Definition tmp_write (path : string) (data : bytes) : M unit :=
  λ w, if (length data <=? free_space w)%nat
       then (Returned tt,
             set_disk (alter (λ old, old ++ data) path (files w))
                      (free_space w - length data)%nat w)
       else (Raised (OSError 28 "No space left on device" None), w).

(** [os.unlink(path)] *)
Definition os_unlink (path : string) : M unit :=
  λ w, match files w !! path with
       | None =>
           (Raised (OSError 2 "No such file or directory" (Some path)),
            record_event (EvUnlink path false) w)
       | Some data =>
           if decide (path ∈ locked w)
           then (Raised (OSError 13 "Permission denied" (Some path)),
                 record_event (EvUnlink path false) w)
           else (Returned tt,
                 record_event (EvUnlink path true)
                   (set_disk (delete path (files w))
                             (free_space w + length data)%nat w))
       end.

(** [await audio.read()] *)
Definition upload_read (audio : UploadFile) : M bytes := ret (file_content audio).

(** ** The libraries *)

(** [whisper.load_model(name)] *)
Definition load_model (name : string) : M Model :=
  λ w, let '(r, x) := whisper_load_model name (ext w) in
       (r, external x (EvLoadModel name (is_returned r)) w).

(** [model.transcribe(path)] *)
Definition transcribe (m : Model) (path : string) : M (gmap string string) :=
  λ w, let '(r, x) := whisper_transcribe m path (files w) (ext w) in
       (r, external x (EvTranscribe path) w).

(** [client.messages.create(model=..., max_tokens=..., messages=...)] *)
Definition messages_create (client : Anthropic) (call : api_call) : M Message :=
  λ w, let '(r, x) := anthropic_messages_create client call (ext w) in
       (r, external x (EvMessagesCreate call) w).

(** ** main.py *)

Definition get_whisper_model : M Model :=
  λ w, match whisper_model w with
       | None =>
           (name ← os_getenv_default "WHISPER_MODEL" "base";
            m ← load_model name;
            (λ w1, (Returned m, set_whisper_model (Some m) w1)) : M Model) w
       | Some m => (Returned m, w)
       end.

Definition get_claude_client : M Anthropic :=
  key ← os_getenv "ANTHROPIC_API_KEY";
  if opt_truthy key
  then ret {| api_key := default "" key |}
  else raise (HTTPException 500 "ANTHROPIC_API_KEY not configured").

Definition root : M RootResponse :=
  ret {| ro_message := "Speech to Text API"; ro_status := "running" |}.

(** [POST /transcribe] *)
Definition transcribe_audio (audio : UploadFile) : M TranscribeResponse :=
  if negb (opt_truthy (filename audio))
  then raise (HTTPException 400 "No audio file provided")
  else
    let suffix := str_or (snd (os_path_splitext (default "" (filename audio)))) ".wav" in
    tmp ← NamedTemporaryFile suffix;
    data ← upload_read audio;
    tmp_write tmp data;;
    let tmp_path := tmp in
    try_finally
      (try_except
         (model ← get_whisper_model;
          result ← transcribe model tmp_path;
          result_text ← dict_getitem result "text";
          ret {| tr_success := true;
                 tr_text := result_text;
                 tr_language := dict_get result "language" "unknown" |})
         (λ e, raise (HTTPException 500 ("Transcription failed: " +:+ str_exn e))))
      (os_unlink tmp_path).

(** The local [prompts] dict of [enhance_text]. *)
Definition prompts : gmap string string :=
  <["cleanup" := "Clean up this transcribed speech. Fix grammar, punctuation, and formatting while preserving the original meaning. Return only the cleaned text:"]>
  (<["summarize" := "Summarize this transcribed speech concisely, capturing the key points:"]>
  (<["action_items" := "Extract action items and key tasks from this transcribed speech. Format as a bullet list:"]>
  (<["format" := "Format this transcribed speech into well-structured paragraphs with proper punctuation and headings where appropriate:"]>
   ∅))).

(** [prompts.get(request.task, prompts["cleanup"])]: the default is an
    argument, so [prompts["cleanup"]] is evaluated first. *)
Definition select_prompt (task_name : string) : M string :=
  fallback ← dict_getitem prompts "cleanup";
  ret (dict_get prompts task_name fallback).

(** [POST /enhance] *)
Definition enhance_text (request : EnhanceRequest) : M EnhanceResponse :=
  prompt ← select_prompt (task request);
  try_except
    (client ← get_claude_client;
     message ← messages_create client
       {| model := "claude-opus-4-5-20250514";
          max_tokens := 1024;
          messages := [ {| role := "user";
                           content := prompt +:+ nl +:+ nl +:+ text request |} ] |};
     block ← list_getitem (message_content message) 0;
     enhanced ← block_text block;
     ret {| en_success := true;
            en_original := text request;
            en_enhanced := enhanced;
            en_task := task request |})
    (λ e, raise (HTTPException 500 ("Enhancement failed: " +:+ str_exn e))).

(** [POST /transcribe-and-enhance] *)
Definition transcribe_and_enhance (audio : UploadFile) (task_name : string)
    : M CombinedResponse :=
  transcription ← transcribe_audio audio;
  let enhance_request := {| text := tr_text transcription; task := task_name |} in
  enhanced ← enhance_text enhance_request;
  ret {| co_success := true;
         co_raw_transcription := tr_text transcription;
         co_enhanced_text := en_enhanced enhanced;
         co_language := tr_language transcription;
         co_task := task_name |}.

(** ** The HTTP boundary

    FastAPI turns an [HTTPException] into a response with its status code
    and any other exception into a 500.  A request that FastAPI's own
    validation refuses (422) never reaches a handler and is not a request
    of this model: the statements below are about the handlers, called. *)
Definition http_status {A} (r : outcome A) : Z :=
  match r with
  | Returned _ => 200
  | Raised (HTTPException c _) => c
  | Raised _ => 500
  end.

Inductive request :=
| GetRoot
| PostTranscribe (audio : UploadFile)
| PostEnhance (body : EnhanceRequest)
| PostTranscribeAndEnhance (audio : UploadFile) (task_name : string).

Inductive response :=
| RootBody (b : RootResponse)
| TranscribeBody (b : TranscribeResponse)
| EnhanceBody (b : EnhanceResponse)
| CombinedBody (b : CombinedResponse).

Definition dispatch (rq : request) : M response :=
  match rq with
  | GetRoot => RootBody <$> root
  | PostTranscribe audio => TranscribeBody <$> transcribe_audio audio
  | PostEnhance body => EnhanceBody <$> enhance_text body
  | PostTranscribeAndEnhance audio t => CombinedBody <$> transcribe_and_enhance audio t
  end.

(** Requests served one after the other: the responses, oldest first, and
    the world the process is left in. *)
Fixpoint serve (rqs : list request) (w : World) : list (outcome response) * World :=
  match rqs with
  | [] => ([], w)
  | rq :: rest =>
      let '(r, w1) := dispatch rq w in
      let '(rs, w2) := serve rest w1 in
      (r :: rs, w2)
  end.

(** ** The parts of [transcribe_audio]

    Lines 66-71 run up to the handler's only suspension point,
    [await audio.read()]; lines 72-74 store the upload; lines 76-85 are the
    [try]/[except] that settles the outcome; line 87 is the [finally]. *)
Definition create_tempfile (audio : UploadFile) : M string :=
  if negb (opt_truthy (filename audio))
  then raise (HTTPException 400 "No audio file provided")
  else
    NamedTemporaryFile
      (str_or (snd (os_path_splitext (default "" (filename audio)))) ".wav").

Definition store_upload (audio : UploadFile) (tmp : string) : M unit :=
  data ← upload_read audio;
  tmp_write tmp data.

Definition save_upload (audio : UploadFile) : M string :=
  tmp ← create_tempfile audio;
  store_upload audio tmp;;
  ret tmp.

Definition whisper_attempt (tmp_path : string) : M TranscribeResponse :=
  try_except
    (model ← get_whisper_model;
     result ← transcribe model tmp_path;
     result_text ← dict_getitem result "text";
     ret {| tr_success := true;
            tr_text := result_text;
            tr_language := dict_get result "language" "unknown" |})
    (λ e, raise (HTTPException 500 ("Transcription failed: " +:+ str_exn e))).

Definition transcribe_stored (tmp_path : string) : M TranscribeResponse :=
  try_finally (whisper_attempt tmp_path) (os_unlink tmp_path).

(** ** The parts of [enhance_text] *)

(** The keyword arguments [enhance_text] passes to the client. *)
Definition enhance_call (request : EnhanceRequest) : api_call :=
  {| model := "claude-opus-4-5-20250514";
     max_tokens := 1024;
     messages :=
       [ {| role := "user";
            content := dict_get prompts (task request)
              "Clean up this transcribed speech. Fix grammar, punctuation, and formatting while preserving the original meaning. Return only the cleaned text:"
              +:+ nl +:+ nl +:+ text request |} ] |}.

(** What the handler makes of the client's reply. *)
Definition enhance_reply (request : EnhanceRequest) (r : outcome Message)
    : outcome EnhanceResponse :=
  match r with
  | Returned msg =>
      match message_content msg with
      | TextBlock t :: _ =>
          Returned {| en_success := true; en_original := text request;
                      en_enhanced := t; en_task := task request |}
      | OtherBlock ty :: _ =>
          Raised (HTTPException 500 ("Enhancement failed: " +:+
            str_exn (AttributeError ("'" +:+ ty +:+ "' object has no attribute 'text'"))))
      | [] =>
          Raised (HTTPException 500 ("Enhancement failed: " +:+
            str_exn (IndexError "list index out of range")))
      end
  | Raised e => Raised (HTTPException 500 ("Enhancement failed: " +:+ str_exn e))
  end.

(** ** Cooperative scheduling

    The handlers are [async def]: they run on one event loop and give up
    control only at an [await] that suspends.  A coroutine is either
    finished or waiting to be resumed; resuming runs it, uninterrupted, up
    to its next suspension point. *)
#[local] Unset Elimination Schemes.
Inductive coroutine (A : Type) :=
| Finished (r : outcome A)
| Awaiting (resume : World → coroutine A * World).
#[local] Set Elimination Schemes.
Arguments Finished {A} r.
Arguments Awaiting {A} resume.

(** A stretch of code without suspension point. *)
Definition atomic {A} (c : M A) : World → coroutine A * World :=
  λ w, let '(r, w1) := c w in (Finished r, w1).

(** [transcribe_audio(audio)] as a coroutine: it may be suspended once, at
    [await audio.read()], with the temporary file already created. *)
Definition transcribe_audio_task (audio : UploadFile) : coroutine TranscribeResponse :=
  Awaiting (λ w,
    match create_tempfile audio w with
    | (Raised e, w1) => (Finished (Raised e), w1)
    | (Returned tmp, w1) =>
        (Awaiting (atomic (store_upload audio tmp;; transcribe_stored tmp)), w1)
    end).

(** The event loop resumes task [i] of the pool. *)
Definition resume_task {A} (i : nat) (pool : list (coroutine A)) (w : World)
    : list (coroutine A) * World :=
  match pool !! i with
  | Some (Awaiting k) => let '(c, w1) := k w in (<[i := c]> pool, w1)
  | _ => (pool, w)
  end.

(** A schedule is the order in which the loop resumes the tasks. *)
Fixpoint event_loop {A} (schedule : list nat) (pool : list (coroutine A)) (w : World)
    : list (coroutine A) * World :=
  match schedule with
  | [] => (pool, w)
  | i :: rest => let '(pool1, w1) := resume_task i pool w in event_loop rest pool1 w1
  end.

Definition answered {A} (c : coroutine A) : bool :=
  match c with Finished (Returned _) => true | _ => false end.

(** ** Invariants of the process *)

(** [c] preserves the property [I] of worlds, whether it returns or raises. *)
Definition stable {A} (I : World → Prop) (c : M A) : Prop :=
  ∀ w, I w → I (snd (c w)).

Definition loaded (w : World) : Prop := is_Some (whisper_model w).

(** The handle is set exactly when one load has completed. *)
Definition load_invariant (w : World) : Prop :=
  model_loads (trace w) = match whisper_model w with Some _ => 1%nat | None => 0%nat end.

(** A set handle stays as it is, and no further load is attempted. *)
Definition handle_kept (m : Model) (calls : list event) (w : World) : Prop :=
  whisper_model w = Some m ∧ load_calls (trace w) = calls.

(** What each resumption of a transcription task guarantees. *)
Inductive task_ok : coroutine TranscribeResponse → Prop :=
| ok_finished r : task_ok (Finished r)
| ok_awaiting k :
    (∀ w, load_invariant w → load_invariant (snd (k w))) →
    (∀ w, loaded w → loaded (snd (k w))) →
    (∀ w, loaded w → load_calls (trace (snd (k w))) = load_calls (trace w)) →
    (∀ w, answered (fst (k w)) = true → loaded (snd (k w))) →
    (∀ w, task_ok (fst (k w))) →
    task_ok (Awaiting k).

(** The disk is as it was. *)
Definition disk_kept (fs : gmap string bytes) (l : gset string) (w : World) : Prop :=
  files w = fs ∧ locked w = l.

(** Every answered task of the pool found the model loaded. *)
Definition pool_ok (pool : list (coroutine TranscribeResponse)) (w : World) : Prop :=
  Forall task_ok pool ∧ Forall (λ c, answered c = true → loaded w) pool.

(** [transcribe_audio(audio)] suspended at [await audio.read()], its
    temporary file [tmp] created. *)
Definition resumed_task (audio : UploadFile) (tmp : string)
    : coroutine TranscribeResponse :=
  Awaiting (atomic (store_upload audio tmp;; transcribe_stored tmp)).

(** The states a [/transcribe] task goes through. *)
Inductive known_task : coroutine TranscribeResponse → Prop :=
| known_fresh audio : known_task (transcribe_audio_task audio)
| known_resumed audio tmp : known_task (resumed_task audio tmp)
| known_finished r : known_task (Finished r).

(** The loader returns a model whenever it is asked for the configured one. *)
Definition loader_returns (env : gmap string string) : Prop :=
  ∀ x, is_returned (fst (whisper_load_model (default "base" (env !! "WHISPER_MODEL")) x))
       = true.

(** No load was attempted yet, and the file [tmp] waits, empty. *)
Definition before_load (env : gmap string string) (free : nat) (tmp : string)
    (w : World) : Prop :=
  whisper_model w = None ∧ load_calls (trace w) = [] ∧ free_space w = free ∧
  environ w = env ∧ files w !! tmp = Some [].

(** One load was made, and it completed. *)
Definition after_load (env : gmap string string) (w : World) : Prop :=
  loaded w ∧
  load_calls (trace w) = [EvLoadModel (default "base" (env !! "WHISPER_MODEL")) true].

(** Every load attempted so far completed, under the environment [env]. *)
Definition loads_completed (env : gmap string string) (w : World) : Prop :=
  environ w = env ∧ ∀ name ok, In (EvLoadModel name ok) (trace w) → ok = true.
End Service.

Arguments Finished {_ A} r.
Arguments Awaiting {_ A} resume.

(** ** A concrete platform

    A small stand-in for the libraries, to run the handlers on explicit
    inputs.  The outside state counts the library calls made so far. *)
Module Demo.

(** Index of the last occurrence of [c] in [s], or -1: Python's [str.rfind]. *)
Fixpoint rfind_from (c : ascii) (s : string) (i : Z) (found : Z) : Z :=
  match s with
  | EmptyString => found
  | String a rest => rfind_from c rest (i + 1) (if Ascii.eqb a c then i else found)
  end.

Definition rfind (c : ascii) (s : string) : Z := rfind_from c s 0 (-1).

Definition has_non_dot (s : string) : bool :=
  existsb (λ a, negb (Ascii.eqb a ".")) (list_ascii_of_string s).

(** [posixpath.splitext] *)
Definition splitext (p : string) : string * string :=
  let sepIndex := rfind "/" p in
  let dotIndex := rfind "." p in
  if (sepIndex <? dotIndex)%Z
     && has_non_dot (substring (Z.to_nat (sepIndex + 1)) (Z.to_nat (dotIndex - sepIndex - 1)) p)
  then (substring 0 (Z.to_nat dotIndex) p,
        substring (Z.to_nat dotIndex) (String.length p - Z.to_nat dotIndex) p)
  else (p, "").

Definition known_models : list string :=
  ["tiny"; "base"; "small"; "medium"; "large"].

Definition load (name : string) (calls : nat) : outcome string * nat :=
  if bool_decide (name ∈ known_models)
  then (Returned name, S calls)
  else (Raised (LibraryError ("Model " +:+ name +:+ " not found")), S calls).

(** The transcript of a file is its bytes read as text; an empty or missing
    file is rejected. *)
Definition transcript (m : string) (path : string) (fs : gmap string bytes)
    (calls : nat) : outcome (gmap string string) * nat :=
  match fs !! path with
  | Some (b :: data) =>
      (Returned (<["text" := string_of_list_byte (b :: data)]>
                 (<["language" := "en"]> ∅)), S calls)
  | _ => (Raised (LibraryError "Failed to load audio"), S calls)
  end.

Definition first_content (call : api_call) : string :=
  match messages call with
  | m :: _ => content m
  | [] => ""
  end.

(** The remote service echoes the prompt it was sent. *)
Definition complete (client : Anthropic) (call : api_call) (calls : nat)
    : outcome Message * nat :=
  (Returned {| message_content := [TextBlock ("Reply to: " +:+ first_content call)] |},
   S calls).

(** A remote service that is down. *)
Definition refuse (msg : string) (client : Anthropic) (call : api_call) (calls : nat)
    : outcome Message * nat :=
  (Raised (LibraryError msg), S calls).

(** Starlette's [HTTPException.__str__]. *)
Definition starlette_str (c : Z) (d : string) : string := pretty c +:+ ": " +:+ d.

(** [tempfile.TMP_MAX] where the OS defines none. *)
Definition fallback_TMP_MAX : nat := 100 * 100.

Definition candidate (n : nat) (suffix : string) : string :=
  "/tmp/tmp" +:+ pretty n +:+ suffix.

Definition platform : Platform :=
  {| Model := string; Ext := nat;
     whisper_load_model := load;
     whisper_transcribe := transcript;
     anthropic_messages_create := complete;
     os_path_splitext := splitext;
     tempfile_candidate := candidate;
     tempfile_TMP_MAX := fallback_TMP_MAX;
     HTTPException_str := starlette_str |}.

(** The same platform with the remote service failing with [msg]. *)
Definition platform_refusing (msg : string) : Platform :=
  {| Model := string; Ext := nat;
     whisper_load_model := load;
     whisper_transcribe := transcript;
     anthropic_messages_create := refuse msg;
     os_path_splitext := splitext;
     tempfile_candidate := candidate;
     tempfile_TMP_MAX := fallback_TMP_MAX;
     HTTPException_str := starlette_str |}.

(** The same platform with the remote service replying with [blocks]. *)
Definition platform_replying (blocks : list content_block) : Platform :=
  {| Model := string; Ext := nat;
     whisper_load_model := load;
     whisper_transcribe := transcript;
     anthropic_messages_create :=
       λ _ _ calls, (Returned {| message_content := blocks |}, S calls);
     os_path_splitext := splitext;
     tempfile_candidate := candidate;
     tempfile_TMP_MAX := fallback_TMP_MAX;
     HTTPException_str := starlette_str |}.

(** The same platform with a model whose result is the dict [result]. *)
Definition platform_transcribing (result : gmap string string) : Platform :=
  {| Model := string; Ext := nat;
     whisper_load_model := load;
     whisper_transcribe := λ _ _ _ calls, (Returned result, S calls);
     anthropic_messages_create := complete;
     os_path_splitext := splitext;
     tempfile_candidate := candidate;
     tempfile_TMP_MAX := fallback_TMP_MAX;
     HTTPException_str := starlette_str |}.

(** A freshly started process with the given environment. *)
Definition boot (P : Platform) (x : @Ext P) (env : gmap string string) : @World P :=
  {| environ := env; files := ∅; locked := ∅; free_space := 4096;
     names_drawn := 0; whisper_model := None; ext := x; trace := [] |}.

Definition with_key : gmap string string := {[ "ANTHROPIC_API_KEY" := "sk-test" ]}.

Definition no_key : gmap string string := ∅.

(** A process whose next temporary file cannot be unlinked. *)
Definition boot_locked (env : gmap string string) : @World platform :=
  @Build_World platform env ∅ {[ "/tmp/tmp0.wav" ]} 4096 0 None 0%nat [].

(** A process on a full disk. *)
Definition boot_full (env : gmap string string) : @World platform :=
  @Build_World platform env ∅ ∅ 0 0 None 0%nat [].

(** A process of platform [P] that has already loaded the base model. *)
Definition boot_loaded (P : Platform) (m : @Model P) (x : @Ext P)
    (fs : gmap string bytes) : @World P :=
  {| environ := ∅; files := fs; locked := ∅; free_space := 4096;
     names_drawn := 0; whisper_model := Some m; ext := x; trace := [] |}.

Definition hello : bytes := list_byte_of_string "hello world".

Definition upload (name : string) : UploadFile :=
  {| filename := Some name; file_content := hello |}.

End Demo.

(** * Properties *)

Section Properties.
Context `{Platform}.

(** ** Running the monad *)

Lemma run_bind {A B} (c : M A) (k : A → M B) w :
  (c ≫= k) w =
  match c w with
  | (Returned a, w1) => k a w1
  | (Raised e, w1) => (Raised e, w1)
  end.
Proof. reflexivity. Qed.

Lemma run_bind_returned {A B} (c : M A) (k : A → M B) w a w1 :
  c w = (Returned a, w1) → (c ≫= k) w = k a w1.
Proof. intros E. rewrite run_bind, E. reflexivity. Qed.

Lemma run_bind_raised {A B} (c : M A) (k : A → M B) w e w1 :
  c w = (Raised e, w1) → (c ≫= k) w = (Raised e, w1).
Proof. intros E. rewrite run_bind, E. reflexivity. Qed.

Lemma bind_returned_inv {A B} (c : M A) (k : A → M B) w b w2 :
  (c ≫= k) w = (Returned b, w2) →
  ∃ a w1, c w = (Returned a, w1) ∧ k a w1 = (Returned b, w2).
Proof.
  rewrite run_bind. destruct (c w) as [[a|e] w1]; intros E.
  - exists a, w1. split; [reflexivity | exact E].
  - discriminate E.
Qed.

Lemma try_except_returned_inv {A} (body : M A) (handler : exn → M A) w a w1 :
  (∀ e w0, fst (handler e w0) ≠ Returned a) →
  try_except body handler w = (Returned a, w1) →
  body w = (Returned a, w1).
Proof.
  intros Hh. unfold try_except. destruct (body w) as [[a'|e] w'].
  - intros E. exact E.
  - intros E. exfalso. apply (Hh e w'). rewrite E. reflexivity.
Qed.

(** The decomposition of the handler into its parts. *)
Lemma transcribe_audio_parts audio w :
  transcribe_audio audio w = (save_upload audio ≫= transcribe_stored) w.
Proof.
  unfold transcribe_audio, save_upload, create_tempfile, store_upload, transcribe_stored,
    whisper_attempt.
  destruct (negb (opt_truthy (filename audio))); [reflexivity|].
  rewrite !run_bind.
  destruct (NamedTemporaryFile _ w) as [[tmp|e] w1]; [|reflexivity].
  rewrite !run_bind.
  destruct (upload_read audio w1) as [[data|e] w2]; [|reflexivity].
  rewrite !run_bind.
  destruct (tmp_write tmp data w2) as [[[]|e] w3]; reflexivity.
Qed.

(** ** The enhancement handler *)

Lemma select_prompt_run t w :
  select_prompt t w =
  (Returned (dict_get prompts t
     "Clean up this transcribed speech. Fix grammar, punctuation, and formatting while preserving the original meaning. Return only the cleaned text:"), w).
Proof. reflexivity. Qed.

Lemma get_claude_client_no_key w :
  opt_truthy (environ w !! "ANTHROPIC_API_KEY") = false →
  get_claude_client w =
  (Raised (HTTPException 500 "ANTHROPIC_API_KEY not configured"), w).
Proof.
  intros E. unfold get_claude_client. rewrite run_bind. unfold os_getenv.
  rewrite E. reflexivity.
Qed.

Lemma get_claude_client_key w :
  opt_truthy (environ w !! "ANTHROPIC_API_KEY") = true →
  get_claude_client w =
  (Returned {| api_key := default "" (environ w !! "ANTHROPIC_API_KEY") |}, w).
Proof.
  intros E. unfold get_claude_client. rewrite run_bind. unfold os_getenv.
  rewrite E. reflexivity.
Qed.

Lemma enhance_text_no_key request w :
  opt_truthy (environ w !! "ANTHROPIC_API_KEY") = false →
  enhance_text request w =
  (Raised (HTTPException 500
     ("Enhancement failed: " +:+ HTTPException_str 500 "ANTHROPIC_API_KEY not configured")),
   w).
Proof.
  intros E. unfold enhance_text. rewrite run_bind, select_prompt_run.
  unfold try_except. rewrite run_bind, (get_claude_client_no_key _ E).
  reflexivity.
Qed.

Lemma enhance_text_key request w :
  opt_truthy (environ w !! "ANTHROPIC_API_KEY") = true →
  enhance_text request w =
  let client := {| api_key := default "" (environ w !! "ANTHROPIC_API_KEY") |} in
  let '(r, x) := anthropic_messages_create client (enhance_call request) (ext w) in
  (enhance_reply request r, external x (EvMessagesCreate (enhance_call request)) w).
Proof.
  intros E. unfold enhance_text. rewrite run_bind, select_prompt_run.
  unfold try_except. rewrite run_bind, (get_claude_client_key _ E).
  rewrite run_bind. unfold messages_create. fold (enhance_call request).
  cbv zeta.
  destruct (anthropic_messages_create _ _ _) as [[msg|e] x]; [|reflexivity].
  rewrite run_bind. unfold list_getitem.
  destruct msg as [[|[t|ty] rest]]; reflexivity.
Qed.


Lemma prefix_append_inj (p a b : string) : p +:+ a = p +:+ b → a = b.
Proof.
  induction p as [|c p IH]; simpl; intros E.
  - exact E.
  - injection E as E. exact (IH E).
Qed.

(** C4. The [prompts] table has exactly four entries, [cleanup],
    [summarize], [action_items] and [format]; each of these tasks selects its
    own instruction; every other task selects the [cleanup] instruction, and
    the selection never raises. *)
Theorem prompt_selection (t : string) (w : World) :
  size prompts = 4%nat ∧
  dom prompts = {[ "cleanup"; "summarize"; "action_items"; "format" ]} ∧
  select_prompt "cleanup" w =
    (Returned "Clean up this transcribed speech. Fix grammar, punctuation, and formatting while preserving the original meaning. Return only the cleaned text:", w) ∧
  select_prompt "summarize" w =
    (Returned "Summarize this transcribed speech concisely, capturing the key points:", w) ∧
  select_prompt "action_items" w =
    (Returned "Extract action items and key tasks from this transcribed speech. Format as a bullet list:", w) ∧
  select_prompt "format" w =
    (Returned "Format this transcribed speech into well-structured paragraphs with proper punctuation and headings where appropriate:", w) ∧
  (t ∉ dom prompts →
   select_prompt t w = select_prompt "cleanup" w ∧
   ∀ body, enhance_call {| text := body; task := t |}
           = enhance_call {| text := body; task := "cleanup" |}).
Proof.
  split; [reflexivity|].
  split.
  { unfold prompts. rewrite !dom_insert_L, dom_empty_L. set_solver. }
  do 4 (split; [reflexivity|]).
  intros Ht. apply not_elem_of_dom in Ht.
  split.
  - rewrite !select_prompt_run. unfold dict_get. rewrite Ht. reflexivity.
  - intros body. unfold enhance_call, dict_get. simpl task. rewrite Ht. reflexivity.
Qed.

(** C8. The prompt sent to the completion API is the selected instruction,
    a blank line, then the input text verbatim; the call names the fixed
    model and asks for at most 1024 tokens; [enhanced] is the text of the
    first content block of the reply: a response has no other source, and
    a reply whose first block is a text block is answered with that text. *)
Theorem enhance_text_remote_call (request : EnhanceRequest) (w : World) :
  ∃ instruction,
    select_prompt (task request) w = (Returned instruction, w) ∧
    let call :=
      {| model := "claude-opus-4-5-20250514";
         max_tokens := 1024;
         messages := [ {| role := "user";
                          content := instruction +:+ nl +:+ nl +:+ text request |} ] |} in
    (trace (snd (enhance_text request w)) = trace w ∨
     trace (snd (enhance_text request w)) = trace w ++ [EvMessagesCreate call]) ∧
    (opt_truthy (environ w !! "ANTHROPIC_API_KEY") = true →
     trace (snd (enhance_text request w)) = trace w ++ [EvMessagesCreate call]) ∧
    (∀ body, fst (enhance_text request w) = Returned body →
       ∃ msg x t rest,
         anthropic_messages_create
           {| api_key := default "" (environ w !! "ANTHROPIC_API_KEY") |}
           call (ext w) = (Returned msg, x) ∧
         message_content msg = TextBlock t :: rest ∧
         en_enhanced body = t) ∧
    (∀ msg x t rest,
       opt_truthy (environ w !! "ANTHROPIC_API_KEY") = true →
       anthropic_messages_create
         {| api_key := default "" (environ w !! "ANTHROPIC_API_KEY") |}
         call (ext w) = (Returned msg, x) →
       message_content msg = TextBlock t :: rest →
       enhance_text request w
       = (Returned {| en_success := true; en_original := text request;
                      en_enhanced := t; en_task := task request |},
          external x (EvMessagesCreate call) w)).
Proof.
  eexists. split; [apply select_prompt_run|]. cbv zeta.
  fold (enhance_call request).
  destruct (opt_truthy (environ w !! "ANTHROPIC_API_KEY")) eqn:K.
  - rewrite (enhance_text_key _ _ K). cbv zeta.
    destruct (anthropic_messages_create _ _ _) as [r x] eqn:E.
    split; [right; reflexivity|]. split; [intros _; reflexivity|].
    split.
    + intros body Hb. simpl in Hb.
      destruct r as [msg|e]; [|discriminate Hb].
      destruct msg as [[|[t|ty] rest]]; try discriminate Hb.
      injection Hb as <-.
      eexists _, x, t, rest. split; [reflexivity|]. split; reflexivity.
    + intros msg x' t rest _ [= -> ->] Hc. simpl. rewrite Hc. reflexivity.
  - rewrite (enhance_text_no_key _ _ K).
    split; [left; reflexivity|]. split; [discriminate|].
    split; [intros body Hb; discriminate Hb|].
    intros msg x t rest K'. discriminate K'.
Qed.

(** C10. A successful [/enhance] response repeats the request: [original]
    is the input text and [task] is the caller's task string, whatever it
    is, also when it is not one of the four known tasks. *)
Theorem enhance_text_echoes_request (request : EnhanceRequest) (w w' : World)
    (body : EnhanceResponse) :
  enhance_text request w = (Returned body, w') →
  en_original body = text request ∧ en_task body = task request.
Proof.
  destruct (opt_truthy (environ w !! "ANTHROPIC_API_KEY")) eqn:K.
  - rewrite (enhance_text_key _ _ K). cbv zeta.
    destruct (anthropic_messages_create _ _ _) as [[msg|e] x]; simpl;
      [|discriminate].
    destruct msg as [[|[t|ty] rest]]; simpl; try discriminate.
    intros E. injection E as <- _. split; reflexivity.
  - rewrite (enhance_text_no_key _ _ K). discriminate.
Qed.

(** C2. Without a credential (unset or empty) [/enhance] fails before any
    network call: the world is untouched and the answer is a 500 whose
    detail carries the configuration exception, ["Enhancement failed: "]
    followed by its str().  A failed API call is answered, after the call,
    with ["Enhancement failed: "] followed by the text of the API error, so
    the two answers differ whenever that text is not the configuration
    message itself. *)
Theorem enhance_text_without_credential (request : EnhanceRequest) (w : World) :
  opt_truthy (environ w !! "ANTHROPIC_API_KEY") = false →
  let detail :=
    "Enhancement failed: " +:+ HTTPException_str 500 "ANTHROPIC_API_KEY not configured" in
  enhance_text request w = (Raised (HTTPException 500 detail), w) ∧
  http_status (fst (enhance_text request w)) = 500 ∧
  network_calls (trace (snd (enhance_text request w))) = network_calls (trace w) ∧
  ∀ (request' : EnhanceRequest) (w' : World) (e : exn) (x : Ext),
    opt_truthy (environ w' !! "ANTHROPIC_API_KEY") = true →
    anthropic_messages_create
      {| api_key := default "" (environ w' !! "ANTHROPIC_API_KEY") |}
      (enhance_call request') (ext w') = (Raised e, x) →
    enhance_text request' w'
      = (Raised (HTTPException 500 ("Enhancement failed: " +:+ str_exn e)),
         external x (EvMessagesCreate (enhance_call request')) w') ∧
    (str_exn e ≠ HTTPException_str 500 "ANTHROPIC_API_KEY not configured" →
     fst (enhance_text request' w') ≠ fst (enhance_text request w)).
Proof.
  intros K detail. rewrite (enhance_text_no_key _ _ K). fold detail.
  split; [reflexivity|]. split; [reflexivity|]. split; [reflexivity|].
  intros request' w' e x K' E.
  rewrite (enhance_text_key _ _ K'). cbv zeta. rewrite E.
  split; [reflexivity|].
  intros Hne Heq. simpl in Heq. injection Heq as Heq.
  apply Hne. exact (prefix_append_inj _ _ _ Heq).
Qed.

(** ** The transcription handler *)

(** C9. An upload without a filename (absent or empty) is answered with
    400 at once: the world is untouched, so no temporary file was created
    and no library was called. *)
Theorem transcribe_audio_without_filename (audio : UploadFile) (w : World) :
  opt_truthy (filename audio) = false →
  transcribe_audio audio w = (Raised (HTTPException 400 "No audio file provided"), w) ∧
  http_status (fst (transcribe_audio audio w)) = 400 ∧
  files (snd (transcribe_audio audio w)) = files w ∧
  trace (snd (transcribe_audio audio w)) = trace w.
Proof.
  intros E.
  assert (transcribe_audio audio w
          = (Raised (HTTPException 400 "No audio file provided"), w)) as ->.
  { unfold transcribe_audio. rewrite E. reflexivity. }
  repeat split.
Qed.

(** ** Composition *)

(** C3. A successful [/transcribe-and-enhance] is [/transcribe] on the
    upload, run to completion, followed by [/enhance] on its text with the
    caller's task: [raw_transcription] is the [text] of the former and
    [enhanced_text] the [enhanced] of the latter. *)
Theorem transcribe_and_enhance_composes (audio : UploadFile) (t : string)
    (w w' : World) (body : CombinedResponse) :
  transcribe_and_enhance audio t w = (Returned body, w') →
  ∃ (tr : TranscribeResponse) (w1 : World) (en : EnhanceResponse),
    transcribe_audio audio w = (Returned tr, w1) ∧
    enhance_text {| text := tr_text tr; task := t |} w1 = (Returned en, w') ∧
    co_raw_transcription body = tr_text tr ∧
    co_enhanced_text body = en_enhanced en ∧
    co_language body = tr_language tr ∧
    co_task body = t.
Proof.
  unfold transcribe_and_enhance. intros E.
  apply bind_returned_inv in E as (tr & w1 & Htr & E).
  apply bind_returned_inv in E as (en & w2 & Hen & E).
  injection E as <- <-.
  exists tr, w1, en. repeat split; assumption.
Qed.


(** ** Preservation of invariants *)

Lemma stable_ret {A} (I : World → Prop) (a : A) : stable I (ret a).
Proof. intros w Hw. exact Hw. Qed.

Lemma stable_raise {A} (I : World → Prop) (e : exn) : stable I (raise (A:=A) e).
Proof. intros w Hw. exact Hw. Qed.

Lemma stable_bind {A B} (I : World → Prop) (c : M A) (k : A → M B) :
  stable I c → (∀ a, stable I (k a)) → stable I (c ≫= k).
Proof.
  intros Hc Hk w Hw. rewrite run_bind.
  specialize (Hc w Hw). destruct (c w) as [[a|e] w1]; simpl in Hc.
  - apply Hk, Hc.
  - exact Hc.
Qed.

Lemma stable_fmap {A B} (I : World → Prop) (f : A → B) (c : M A) :
  stable I c → stable I (f <$> c).
Proof.
  intros Hc. apply (stable_bind I c (λ a, ret (f a))); [exact Hc|].
  intros a. apply stable_ret.
Qed.

Lemma stable_try_except {A} (I : World → Prop) (body : M A) (handler : exn → M A) :
  stable I body → (∀ e, stable I (handler e)) → stable I (try_except body handler).
Proof.
  intros Hb Hh w Hw. unfold try_except.
  specialize (Hb w Hw). destruct (body w) as [[a|e] w1]; simpl in Hb.
  - exact Hb.
  - apply Hh, Hb.
Qed.

Lemma stable_try_finally {A} (I : World → Prop) (body : M A) (cleanup : M unit) :
  stable I body → stable I cleanup → stable I (try_finally body cleanup).
Proof.
  intros Hb Hc w Hw. unfold try_finally.
  specialize (Hb w Hw). destruct (body w) as [r w1]; simpl in Hb.
  specialize (Hc w1 Hb). destruct (cleanup w1) as [[u|e] w2]; exact Hc.
Qed.

Create HintDb stable discriminated.

#[local] Hint Resolve stable_ret stable_raise stable_bind stable_fmap
  stable_try_except stable_try_finally : stable.

(** Invariants that the disk, the name generator, and library calls other
    than model loads leave alone are preserved by every handler, provided
    [get_whisper_model] preserves them. *)
Section Frame.
Variable I : World → Prop.
Hypothesis I_disk : ∀ fs n w, I w → I (set_disk fs n w).
Hypothesis I_names : ∀ n w, I w → I (set_names_drawn n w).
Hypothesis I_external : ∀ x ev w, is_load ev = false → I w → I (external x ev w).

Lemma stable_os_getenv key : stable I (os_getenv key).
Proof. intros w Hw. exact Hw. Qed.

Lemma stable_os_getenv_default key d : stable I (os_getenv_default key d).
Proof. intros w Hw. exact Hw. Qed.

Lemma stable_dict_getitem d key : stable I (dict_getitem d key).
Proof. unfold dict_getitem. destruct (d !! key); auto with stable. Qed.

Lemma stable_list_getitem {A} (l : list A) i : stable I (list_getitem l i).
Proof. unfold list_getitem. destruct (l !! i); auto with stable. Qed.

Lemma stable_block_text b : stable I (block_text b).
Proof. destruct b; simpl; auto with stable. Qed.

Lemma stable_NamedTemporaryFile suffix : stable I (NamedTemporaryFile suffix).
Proof.
  intros w Hw. unfold NamedTemporaryFile.
  destruct (unused_name _ _ _ _) as [[name seq]|]; simpl; auto.
Qed.

Lemma stable_tmp_write path data : stable I (tmp_write path data).
Proof.
  intros w Hw. unfold tmp_write.
  destruct (_ <=? _)%nat; simpl; auto.
Qed.

Lemma stable_os_unlink path : stable I (os_unlink path).
Proof.
  intros w Hw. unfold os_unlink, record_event.
  destruct (files w !! path); [destruct (decide _)|]; simpl; auto.
Qed.

Lemma stable_upload_read audio : stable I (upload_read audio).
Proof. intros w Hw. exact Hw. Qed.

Lemma stable_transcribe m path : stable I (transcribe m path).
Proof.
  intros w Hw. unfold transcribe.
  destruct (whisper_transcribe _ _ _ _) as [r x]; simpl; auto.
Qed.

Lemma stable_messages_create client call : stable I (messages_create client call).
Proof.
  intros w Hw. unfold messages_create.
  destruct (anthropic_messages_create _ _ _) as [r x]; simpl; auto.
Qed.

#[local] Hint Resolve stable_os_getenv stable_os_getenv_default stable_dict_getitem
  stable_list_getitem stable_block_text stable_NamedTemporaryFile stable_tmp_write
  stable_os_unlink stable_upload_read stable_transcribe stable_messages_create
  : stable.

Lemma stable_get_claude_client : stable I get_claude_client.
Proof.
  unfold get_claude_client. apply stable_bind; [auto with stable|].
  intros key. destruct (opt_truthy key); auto with stable.
Qed.

Lemma stable_select_prompt t : stable I (select_prompt t).
Proof. intros w Hw. rewrite select_prompt_run. exact Hw. Qed.

Lemma stable_enhance_text request : stable I (enhance_text request).
Proof.
  unfold enhance_text.
  apply stable_bind; [apply stable_select_prompt|]. intros prompt.
  apply stable_try_except; [|auto with stable].
  apply stable_bind; [apply stable_get_claude_client|]. intros client.
  apply stable_bind; [auto with stable|]. intros message.
  apply stable_bind; [auto with stable|]. intros block.
  apply stable_bind; auto with stable.
Qed.

Lemma stable_create_tempfile audio : stable I (create_tempfile audio).
Proof.
  unfold create_tempfile. destruct (negb _); auto with stable.
Qed.

Lemma stable_store_upload audio tmp : stable I (store_upload audio tmp).
Proof. unfold store_upload. apply stable_bind; auto with stable. Qed.

Lemma stable_save_upload audio : stable I (save_upload audio).
Proof.
  unfold save_upload.
  apply stable_bind; [apply stable_create_tempfile|]. intros tmp.
  apply stable_bind; [apply stable_store_upload|]. auto with stable.
Qed.

Hypothesis I_model : stable I get_whisper_model.

Lemma stable_whisper_attempt tmp : stable I (whisper_attempt tmp).
Proof.
  unfold whisper_attempt.
  apply stable_try_except; [|auto with stable].
  apply stable_bind; [exact I_model|]. intros m.
  apply stable_bind; [auto with stable|]. intros result.
  apply stable_bind; auto with stable.
Qed.

Lemma stable_transcribe_stored tmp : stable I (transcribe_stored tmp).
Proof.
  unfold transcribe_stored.
  apply stable_try_finally; [apply stable_whisper_attempt | auto with stable].
Qed.

Lemma stable_transcribe_audio audio : stable I (transcribe_audio audio).
Proof.
  intros w Hw. rewrite transcribe_audio_parts. revert w Hw.
  apply stable_bind; [apply stable_save_upload|].
  intros tmp. apply stable_transcribe_stored.
Qed.

Lemma stable_transcribe_and_enhance audio t : stable I (transcribe_and_enhance audio t).
Proof.
  unfold transcribe_and_enhance.
  apply stable_bind; [apply stable_transcribe_audio|]. intros tr.
  apply stable_bind; [apply stable_enhance_text|]. auto with stable.
Qed.

Lemma stable_dispatch rq : stable I (dispatch rq).
Proof.
  destruct rq; simpl; apply stable_fmap.
  - unfold root. auto with stable.
  - apply stable_transcribe_audio.
  - apply stable_enhance_text.
  - apply stable_transcribe_and_enhance.
Qed.

Lemma serve_preserves rqs w : I w → I (snd (serve rqs w)).
Proof.
  revert w. induction rqs as [|rq rest IH]; intros w Hw; simpl; [exact Hw|].
  pose proof (stable_dispatch rq w Hw) as H1.
  destruct (dispatch rq w) as [r w1]; simpl in H1.
  specialize (IH w1 H1). destruct (serve rest w1) as [rs w2]; exact IH.
Qed.

End Frame.


(** ** The model handle *)

Lemma get_whisper_model_loaded w m :
  whisper_model w = Some m → get_whisper_model w = (Returned m, w).
Proof. intros E. unfold get_whisper_model. rewrite E. reflexivity. Qed.

Lemma get_whisper_model_first w :
  whisper_model w = None →
  get_whisper_model w =
  let name := default "base" (environ w !! "WHISPER_MODEL") in
  match whisper_load_model name (ext w) with
  | (Returned m, x) =>
      (Returned m, set_whisper_model (Some m) (external x (EvLoadModel name true) w))
  | (Raised e, x) => (Raised e, external x (EvLoadModel name false) w)
  end.
Proof.
  intros E. unfold get_whisper_model. rewrite E.
  rewrite run_bind. unfold os_getenv_default. rewrite run_bind. unfold load_model.
  cbv zeta. destruct (whisper_load_model _ _) as [[m|e] x]; reflexivity.
Qed.

Lemma load_calls_snoc tr ev :
  load_calls (tr ++ [ev]) = load_calls tr ++ (if is_load ev then [ev] else []).
Proof. unfold load_calls. rewrite List.filter_app. simpl. destruct (is_load ev); reflexivity. Qed.

Lemma model_loads_snoc tr ev :
  model_loads (tr ++ [ev]) =
  (model_loads tr + (if is_completed_load ev then 1 else 0))%nat.
Proof.
  unfold model_loads. rewrite List.filter_app, length_app. simpl.
  destruct (is_completed_load ev); reflexivity.
Qed.

Lemma not_load_not_completed ev : is_load ev = false → is_completed_load ev = false.
Proof. destruct ev as [name [|]| | |]; simpl; congruence. Qed.

(** The number of completed loads matches the handle. *)
Lemma load_invariant_disk fs n w : load_invariant w → load_invariant (set_disk fs n w).
Proof. exact id. Qed.

Lemma load_invariant_names n w : load_invariant w → load_invariant (set_names_drawn n w).
Proof. exact id. Qed.

Lemma load_invariant_external x ev w :
  is_load ev = false → load_invariant w → load_invariant (external x ev w).
Proof.
  intros Hev Hw. unfold load_invariant in *. simpl.
  rewrite model_loads_snoc, (not_load_not_completed _ Hev). lia.
Qed.

Lemma load_invariant_get_whisper_model : stable load_invariant get_whisper_model.
Proof.
  intros w Hw. destruct (whisper_model w) as [m|] eqn:E.
  - rewrite (get_whisper_model_loaded _ _ E). exact Hw.
  - rewrite (get_whisper_model_first _ E). cbv zeta.
    unfold load_invariant in *. rewrite E in Hw.
    destruct (whisper_load_model _ _) as [[m|e] x]; simpl.
    + rewrite model_loads_snoc. simpl. lia.
    + rewrite model_loads_snoc, E. simpl. lia.
Qed.

Lemma handle_kept_external m calls x ev w :
  is_load ev = false → handle_kept m calls w → handle_kept m calls (external x ev w).
Proof.
  intros Hev [Hm Hc]. split; [exact Hm|]. simpl.
  rewrite load_calls_snoc, Hev, app_nil_r. exact Hc.
Qed.

Lemma handle_kept_get_whisper_model m calls : stable (handle_kept m calls) get_whisper_model.
Proof.
  intros w [Hm Hc]. rewrite (get_whisper_model_loaded _ _ Hm). split; assumption.
Qed.

Lemma serve_keeps_handle m rqs w :
  whisper_model w = Some m →
  whisper_model (snd (serve rqs w)) = Some m ∧
  load_calls (trace (snd (serve rqs w))) = load_calls (trace w).
Proof.
  intros Hm.
  apply (serve_preserves (handle_kept m (load_calls (trace w)))).
  - intros fs n w0 Hw0. exact Hw0.
  - intros n w0 Hw0. exact Hw0.
  - apply handle_kept_external.
  - apply handle_kept_get_whisper_model.
  - split; [exact Hm | reflexivity].
Qed.

Lemma serve_load_invariant rqs w :
  load_invariant w → load_invariant (snd (serve rqs w)).
Proof.
  apply serve_preserves.
  - apply load_invariant_disk.
  - apply load_invariant_names.
  - apply load_invariant_external.
  - apply load_invariant_get_whisper_model.
Qed.

Lemma load_invariant_at_most_one w : load_invariant w → (model_loads (trace w) ≤ 1)%nat.
Proof. unfold load_invariant. destruct (whisper_model w); lia. Qed.

(** C7. In a sequential execution the first call of [get_whisper_model]
    whose load completes sets the handle to the loaded model; every later
    call returns that handle without calling the loader; whatever requests
    are served next, the handle stays the same model and [load_model] is not
    called again; so at most one load ever completes. *)
Theorem whisper_model_loaded_once (w : World) :
  (∀ m x,
     whisper_model w = None →
     whisper_load_model (default "base" (environ w !! "WHISPER_MODEL")) (ext w)
       = (Returned m, x) →
     fst (get_whisper_model w) = Returned m ∧
     whisper_model (snd (get_whisper_model w)) = Some m ∧
     model_loads (trace (snd (get_whisper_model w))) = S (model_loads (trace w))) ∧
  (∀ m, whisper_model w = Some m → get_whisper_model w = (Returned m, w)) ∧
  (∀ m rqs,
     whisper_model w = Some m →
     whisper_model (snd (serve rqs w)) = Some m ∧
     load_calls (trace (snd (serve rqs w))) = load_calls (trace w)) ∧
  (∀ rqs,
     whisper_model w = None → model_loads (trace w) = 0%nat →
     (model_loads (trace (snd (serve rqs w))) ≤ 1)%nat).
Proof.
  split; [|split; [|split]].
  - intros m x E L. rewrite (get_whisper_model_first _ E). cbv zeta. rewrite L.
    simpl. split; [reflexivity|]. split; [reflexivity|].
    rewrite model_loads_snoc. simpl. lia.
  - intros m. apply get_whisper_model_loaded.
  - intros m rqs. apply serve_keeps_handle.
  - intros rqs E Z. apply load_invariant_at_most_one, serve_load_invariant.
    unfold load_invariant. rewrite E. exact Z.
Qed.


(** ** Concurrent requests on the event loop *)

Lemma loaded_get_whisper_model : stable loaded get_whisper_model.
Proof.
  intros w [m Hm]. rewrite (get_whisper_model_loaded _ _ Hm). exists m. exact Hm.
Qed.

Lemma get_whisper_model_returned w m w1 :
  get_whisper_model w = (Returned m, w1) → loaded w1.
Proof.
  destruct (whisper_model w) as [m0|] eqn:E.
  - rewrite (get_whisper_model_loaded _ _ E). intros [= <- <-]. exists m0. exact E.
  - rewrite (get_whisper_model_first _ E). cbv zeta.
    destruct (whisper_load_model _ _) as [[m1|e] x]; [|discriminate].
    intros [= <- <-]. exists m1. reflexivity.
Qed.

Lemma loaded_external x ev w : loaded w → loaded (external x ev w).
Proof. exact id. Qed.

Lemma whisper_attempt_returned tmp w a w1 :
  whisper_attempt tmp w = (Returned a, w1) → loaded w1.
Proof.
  unfold whisper_attempt. intros E.
  apply try_except_returned_inv in E; [|intros e w0; discriminate].
  apply bind_returned_inv in E as (m & w2 & Hm & E).
  apply get_whisper_model_returned in Hm.
  assert (stable loaded (transcribe m tmp ≫= λ result,
            dict_getitem result "text" ≫= λ result_text,
            ret {| tr_success := true; tr_text := result_text;
                   tr_language := dict_get result "language" "unknown" |})) as St.
  { apply stable_bind; [apply stable_transcribe; intros; assumption|].
    intros result. apply stable_bind; [apply stable_dict_getitem|].
    intros t. apply stable_ret. }
  specialize (St w2 Hm). rewrite E in St. exact St.
Qed.

Lemma transcribe_stored_returned tmp w a w1 :
  transcribe_stored tmp w = (Returned a, w1) → loaded w1.
Proof.
  unfold transcribe_stored, try_finally.
  destruct (whisper_attempt tmp w) as [r w2] eqn:E.
  pose proof (stable_os_unlink loaded (λ _ _ _ h, h) (λ _ _ _ _ h, h) tmp w2) as St.
  destruct (os_unlink tmp w2) as [[u|e] w3]; [|discriminate].
  intros [= -> <-]. apply St. exact (whisper_attempt_returned _ _ _ _ E).
Qed.

Lemma task_ok_atomic (c : M TranscribeResponse) :
  stable load_invariant c →
  stable loaded c →
  (∀ m calls, stable (handle_kept m calls) c) →
  (∀ w a w1, c w = (Returned a, w1) → loaded w1) →
  task_ok (Awaiting (atomic c)).
Proof.
  intros Hinv Hloaded Hkept Hret.
  assert (∀ w, snd (atomic c w) = snd (c w)) as Hsnd.
  { intros w. unfold atomic. destruct (c w); reflexivity. }
  constructor.
  - intros w Hw. rewrite Hsnd. apply Hinv, Hw.
  - intros w Hw. rewrite Hsnd. apply Hloaded, Hw.
  - intros w [m Hm]. rewrite Hsnd.
    apply (Hkept m (load_calls (trace w)) w). split; [exact Hm | reflexivity].
  - intros w. unfold atomic. destruct (c w) as [[a|e] w1] eqn:E; simpl; [|discriminate].
    intros _. exact (Hret _ _ _ E).
  - intros w. unfold atomic. destruct (c w). constructor.
Qed.

Lemma transcribe_audio_task_ok audio : task_ok (transcribe_audio_task audio).
Proof.
  assert (∀ w, snd (match create_tempfile audio w with
                    | (Raised e, w1) => (Finished (Raised e), w1)
                    | (Returned tmp, w1) =>
                        (Awaiting (atomic (store_upload audio tmp;; transcribe_stored tmp)), w1)
                    end) = snd (create_tempfile audio w)) as Hsnd.
  { intros w. destruct (create_tempfile audio w) as [[tmp|e] w1]; reflexivity. }
  constructor.
  - intros w Hw. rewrite Hsnd.
    apply stable_create_tempfile;
      auto using load_invariant_disk, load_invariant_names.
  - intros w Hw. rewrite Hsnd. apply stable_create_tempfile; auto.
  - intros w [m Hm]. rewrite Hsnd.
    apply (stable_create_tempfile (handle_kept m (load_calls (trace w)))); auto.
    split; [exact Hm | reflexivity].
  - intros w. destruct (create_tempfile audio w) as [[tmp|e] w1]; discriminate.
  - intros w. destruct (create_tempfile audio w) as [[tmp|e] w1]; [|constructor].
    simpl. apply task_ok_atomic.
    + apply stable_bind; [apply stable_store_upload|intros _; apply stable_transcribe_stored];
        auto using load_invariant_disk, load_invariant_names, load_invariant_external,
                   load_invariant_get_whisper_model.
    + apply stable_bind; [apply stable_store_upload|intros _; apply stable_transcribe_stored];
        auto using loaded_get_whisper_model.
    + intros m calls.
      apply stable_bind; [apply stable_store_upload|intros _; apply stable_transcribe_stored];
        auto using handle_kept_external, handle_kept_get_whisper_model.
    + intros w0 a w2 E. apply bind_returned_inv in E as (u & w3 & _ & E).
      exact (transcribe_stored_returned _ _ _ _ E).
Qed.

(** Left alone, the task is the handler. *)
Lemma transcribe_audio_task_alone audio w :
  event_loop [0; 0]%nat [transcribe_audio_task audio] w =
  ([Finished (fst (transcribe_audio audio w))], snd (transcribe_audio audio w)).
Proof.
  rewrite transcribe_audio_parts. unfold save_upload.
  rewrite !run_bind.
  unfold event_loop, resume_task, transcribe_audio_task, atomic. cbn [lookup list_lookup].
  destruct (create_tempfile audio w) as [[tmp|e] w1]; [|reflexivity].
  cbn [lookup list_lookup insert list_insert]. rewrite ?run_bind.
  destruct (store_upload audio tmp w1) as [[[]|e] w2]; [|reflexivity].
  rewrite ?run_bind. cbv beta iota delta [ret].
  destruct (transcribe_stored tmp w2); reflexivity.
Qed.

Lemma event_loop_app {A} (s1 s2 : list nat) (pool : list (coroutine A)) w :
  event_loop (s1 ++ s2) pool w =
  event_loop s2 (fst (event_loop s1 pool w)) (snd (event_loop s1 pool w)).
Proof.
  revert pool w. induction s1 as [|i s1 IH]; intros pool w; simpl; [reflexivity|].
  destruct (resume_task i pool w) as [pool1 w1]. apply IH.
Qed.

Lemma resume_task_ok i pool w :
  pool_ok pool w →
  pool_ok (fst (resume_task i pool w)) (snd (resume_task i pool w)) ∧
  (load_invariant w → load_invariant (snd (resume_task i pool w))) ∧
  (loaded w → loaded (snd (resume_task i pool w)) ∧
     load_calls (trace (snd (resume_task i pool w))) = load_calls (trace w)).
Proof.
  intros [Hok Hans]. unfold resume_task.
  destruct (pool !! i) as [[r|k]|] eqn:E; simpl;
    try (split; [split; assumption|]; split; [exact id|];
         intros Hw; split; [exact Hw | reflexivity]).
  assert (task_ok (Awaiting k)) as Hk.
  { rewrite Forall_lookup in Hok. exact (Hok i _ E). }
  inversion Hk as [|k' Hinv Hloaded Hcalls Hanswered Hnext]; subst k'.
  specialize (Hinv w). specialize (Hloaded w). specialize (Hcalls w).
  specialize (Hanswered w). specialize (Hnext w).
  destruct (k w) as [c w1]; simpl in *.
  split; [|split; [exact Hinv | intros Hw; split; auto]].
  split.
  - apply Forall_insert; assumption.
  - apply Forall_insert; [|exact Hanswered].
    eapply Forall_impl; [exact Hans|]. simpl. intros c0 Hc0 Ha. auto.
Qed.

Lemma event_loop_ok schedule pool w :
  pool_ok pool w →
  pool_ok (fst (event_loop schedule pool w)) (snd (event_loop schedule pool w)) ∧
  (load_invariant w → load_invariant (snd (event_loop schedule pool w))) ∧
  (loaded w → loaded (snd (event_loop schedule pool w)) ∧
     load_calls (trace (snd (event_loop schedule pool w))) = load_calls (trace w)).
Proof.
  revert pool w. induction schedule as [|i rest IH]; intros pool w Hp; simpl.
  - split; [exact Hp|]. split; [exact id|]. intros Hw. split; [exact Hw | reflexivity].
  - destruct (resume_task_ok i pool w Hp) as (Hp1 & Hinv1 & Hl1).
    destruct (resume_task i pool w) as [pool1 w1]; simpl in *.
    destruct (IH pool1 w1 Hp1) as (Hp2 & Hinv2 & Hl2).
    split; [exact Hp2|]. split; [tauto|].
    intros Hw. destruct (Hl1 Hw) as [Hw1 Hc1]. destruct (Hl2 Hw1) as [Hw2 Hc2].
    split; [exact Hw2 | congruence].
Qed.

Lemma fresh_pool_ok (audios : list UploadFile) w :
  pool_ok (transcribe_audio_task <$> audios) w.
Proof.
  split; apply Forall_fmap, Forall_forall; intros audio _; simpl.
  - apply transcribe_audio_task_ok.
  - discriminate.
Qed.


(** ** The temporary file *)

Lemma save_upload_returned audio w tmp w0 :
  save_upload audio w = (Returned tmp, w0) →
  is_Some (files w0 !! tmp) ∧ locked w0 = locked w.
Proof.
  unfold save_upload. intros E.
  apply bind_returned_inv in E as (tmp1 & w1 & Hc & E).
  apply bind_returned_inv in E as (u & w2 & Hs & E).
  injection E as -> ->.
  unfold create_tempfile in Hc. destruct (negb _); [discriminate Hc|].
  unfold NamedTemporaryFile in Hc.
  destruct (unused_name _ _ _ _) as [[name seq]|]; [|discriminate Hc].
  injection Hc as -> <-.
  unfold store_upload in Hs. apply bind_returned_inv in Hs as (data & w3 & Hr & Hs).
  injection Hr as <- <-.
  unfold tmp_write in Hs. destruct (_ <=? _)%nat; [|discriminate Hs].
  injection Hs as Hs. subst w0. simpl. split; [|reflexivity].
  rewrite lookup_alter_eq, lookup_insert_eq. eexists. reflexivity.
Qed.

Lemma disk_kept_external fs l x ev w : disk_kept fs l w → disk_kept fs l (external x ev w).
Proof. exact id. Qed.

Lemma disk_kept_get_whisper_model fs l : stable (disk_kept fs l) get_whisper_model.
Proof.
  intros w Hw. destruct (whisper_model w) as [m|] eqn:E.
  - rewrite (get_whisper_model_loaded _ _ E). exact Hw.
  - rewrite (get_whisper_model_first _ E). cbv zeta.
    destruct (whisper_load_model _ _) as [[m|e] x]; exact Hw.
Qed.

Lemma whisper_attempt_disk tmp w :
  files (snd (whisper_attempt tmp w)) = files w ∧
  locked (snd (whisper_attempt tmp w)) = locked w.
Proof.
  cut (stable (disk_kept (files w) (locked w)) (whisper_attempt tmp)).
  { intros St. apply (St w). split; reflexivity. }
  unfold whisper_attempt.
  apply stable_try_except; [|intros e; apply stable_raise].
  apply stable_bind; [apply disk_kept_get_whisper_model|]. intros m.
  apply stable_bind; [apply stable_transcribe; intros; apply disk_kept_external; assumption|].
  intros result. apply stable_bind; [apply stable_dict_getitem|].
  intros t. apply stable_ret.
Qed.

Lemma whisper_attempt_outcome tmp w :
  is_returned (fst (whisper_attempt tmp w)) = true ∨
  ∃ e0, fst (whisper_attempt tmp w)
        = Raised (HTTPException 500 ("Transcription failed: " +:+ str_exn e0)).
Proof.
  unfold whisper_attempt, try_except.
  match goal with |- context [match ?b w with _ => _ end] => destruct (b w) as [[a|e] w1] end.
  - left. reflexivity.
  - right. exists e. reflexivity.
Qed.

Lemma os_unlink_spec path w :
  (∃ ok, trace (snd (os_unlink path w)) = trace w ++ [EvUnlink path ok]) ∧
  (files (snd (os_unlink path w)) !! path = None ∨
   (path ∈ locked w ∧
    fst (os_unlink path w) = Raised (OSError 13 "Permission denied" (Some path)))) ∧
  (∀ e, fst (os_unlink path w) = Raised e → ∃ n s, e = OSError n s (Some path)).
Proof.
  unfold os_unlink, record_event.
  destruct (files w !! path) as [data|] eqn:E;
    [destruct (decide (path ∈ locked w)) as [L|NL]|]; simpl.
  - split; [eexists; reflexivity|]. split; [right; split; [assumption|reflexivity]|].
    intros e [= <-]. eexists _, _. reflexivity.
  - split; [eexists; reflexivity|]. split; [left; apply lookup_delete_eq|].
    intros e [=].
  - split; [eexists; reflexivity|]. split; [left; exact E|].
    intros e [= <-]. eexists _, _. reflexivity.
Qed.

Lemma os_unlink_locked path w :
  is_Some (files w !! path) → path ∈ locked w →
  fst (os_unlink path w) = Raised (OSError 13 "Permission denied" (Some path)).
Proof.
  intros [data E] L. unfold os_unlink. cbv beta. rewrite E.
  destruct (decide (path ∈ locked w)); [reflexivity | contradiction].
Qed.

Lemma transcribe_stored_run tmp w :
  transcribe_stored tmp w =
  match os_unlink tmp (snd (whisper_attempt tmp w)) with
  | (Returned _, w2) => (fst (whisper_attempt tmp w), w2)
  | (Raised e, w2) => (Raised e, w2)
  end.
Proof.
  unfold transcribe_stored, try_finally.
  destruct (whisper_attempt tmp w) as [r w1]. reflexivity.
Qed.

Lemma transcribe_audio_stored audio w tmp w0 :
  save_upload audio w = (Returned tmp, w0) →
  transcribe_audio audio w = transcribe_stored tmp w0.
Proof. intros E. rewrite transcribe_audio_parts. exact (run_bind_returned _ _ _ _ _ E). Qed.

(** C1, as the code has it. Once the upload is stored and the
    [try]/[except] has settled the outcome (a response, or the 500 of a
    failed transcription), a failing [os.unlink] raises its [OSError] to the
    caller in place of that outcome; a successful one leaves the outcome as
    settled.  In particular a file the OS refuses to unlink turns every
    outcome into [PermissionError]. *)
Theorem unlink_failure_replaces_outcome (audio : UploadFile) (w w0 w1 : World)
    (tmp : string) (r0 : outcome TranscribeResponse) :
  save_upload audio w = (Returned tmp, w0) →
  whisper_attempt tmp w0 = (r0, w1) →
  (is_returned r0 = true ∨
   ∃ e0, r0 = Raised (HTTPException 500 ("Transcription failed: " +:+ str_exn e0))) ∧
  (∀ e, fst (os_unlink tmp w1) = Raised e →
     fst (transcribe_audio audio w) = Raised e ∧
     Raised e ≠ r0 ∧
     ∃ n s, e = OSError n s (Some tmp)) ∧
  (fst (os_unlink tmp w1) = Returned tt → fst (transcribe_audio audio w) = r0) ∧
  (tmp ∈ locked w →
     fst (transcribe_audio audio w)
       = Raised (OSError 13 "Permission denied" (Some tmp))).
Proof.
  intros Hs Ha.
  pose proof (whisper_attempt_outcome tmp w0) as Ho.
  pose proof (whisper_attempt_disk tmp w0) as [Hf Hl].
  rewrite Ha in Ho, Hf, Hl. simpl in Ho, Hf, Hl.
  rewrite (transcribe_audio_stored _ _ _ _ Hs), transcribe_stored_run, Ha. simpl.
  split; [exact Ho|].
  assert (∀ e, fst (os_unlink tmp w1) = Raised e →
               fst (match os_unlink tmp w1 with
                    | (Returned _, w2) => (r0, w2)
                    | (Raised e', w2) => (Raised e', w2)
                    end) = Raised e) as Hfail.
  { intros e. destruct (os_unlink tmp w1) as [[u|e'] w2]; simpl; congruence. }
  split; [|split].
  - intros e He. split; [exact (Hfail e He)|].
    destruct (os_unlink_spec tmp w1) as (_ & _ & Hos).
    destruct (Hos e He) as (n & s & ->).
    split; [|eauto].
    destruct Ho as [Ho | [e0 ->]]; [|discriminate].
    intros <-. discriminate Ho.
  - destruct (os_unlink tmp w1) as [[u|e'] w2]; simpl; [reflexivity | discriminate].
  - intros L. apply Hfail, os_unlink_locked.
    + rewrite Hf. apply (save_upload_returned _ _ _ _ Hs).
    + rewrite Hl. destruct (save_upload_returned _ _ _ _ Hs) as [_ ->]. exact L.
Qed.

(** C5, as the code has it. Once the upload is stored, the handler ends
    by calling [os.unlink] on the temporary file on every exit (response or
    transcription error alike), and when it returns the file no longer
    exists unless that unlink was refused, in which case the handler raised
    the unlink's [PermissionError]. *)
Theorem tempfile_removed_unless_unlink_fails (audio : UploadFile) (w w0 : World)
    (tmp : string) :
  save_upload audio w = (Returned tmp, w0) →
  let r := fst (transcribe_audio audio w) in
  let w' := snd (transcribe_audio audio w) in
  (∃ ok, last (trace w') = Some (EvUnlink tmp ok)) ∧
  (files w' !! tmp = None ∨
   r = Raised (OSError 13 "Permission denied" (Some tmp))) ∧
  (tmp ∉ locked w → files w' !! tmp = None).
Proof.
  intros Hs. cbv zeta.
  rewrite (transcribe_audio_stored _ _ _ _ Hs), transcribe_stored_run.
  pose proof (whisper_attempt_disk tmp w0) as [_ Hl].
  destruct (save_upload_returned _ _ _ _ Hs) as [_ Hl0].
  destruct (os_unlink_spec tmp (snd (whisper_attempt tmp w0))) as ([ok Ht] & Hd & _).
  destruct (os_unlink tmp (snd (whisper_attempt tmp w0))) as [[u|e] w2]; simpl in *.
  - split; [exists ok; rewrite Ht; apply last_snoc|].
    destruct Hd as [Hd | [_ Hd]]; [|discriminate Hd].
    split; [left; exact Hd | intros _; exact Hd].
  - split; [exists ok; rewrite Ht; apply last_snoc|].
    destruct Hd as [Hd | [L Hd]].
    + split; [left; exact Hd | intros _; exact Hd].
    + injection Hd as ->. split; [right; reflexivity|].
      intros NL. exfalso. apply NL. congruence.
Qed.


(** ** The upload on its way to the model *)

Lemma unused_name_fresh tries suffix seq (fs : gmap string bytes) name seq' :
  unused_name tries suffix seq fs = Some (name, seq') → fs !! name = None.
Proof.
  revert seq. induction tries as [|n IH]; intros seq; simpl; [discriminate|].
  destruct (fs !! tempfile_candidate seq suffix) eqn:E.
  - apply IH.
  - intros [= <- _]. exact E.
Qed.

Lemma save_upload_stored audio w tmp w0 :
  save_upload audio w = (Returned tmp, w0) →
  opt_truthy (filename audio) = true ∧
  files w !! tmp = None ∧
  files w0 = <[tmp := file_content audio]> (files w) ∧
  (length (file_content audio) ≤ free_space w)%nat ∧
  free_space w0 = (free_space w - length (file_content audio))%nat ∧
  locked w0 = locked w ∧ trace w0 = trace w ∧
  whisper_model w0 = whisper_model w ∧ environ w0 = environ w ∧ ext w0 = ext w.
Proof.
  unfold save_upload. intros E.
  apply bind_returned_inv in E as (tmp1 & w1 & Hc & E).
  apply bind_returned_inv in E as (u & w2 & Hs & E).
  injection E as -> ->.
  unfold create_tempfile in Hc.
  destruct (opt_truthy (filename audio)); [|discriminate Hc]. simpl in Hc.
  unfold NamedTemporaryFile in Hc.
  destruct (unused_name _ _ _ _) as [[name seq]|] eqn:Hn; [|discriminate Hc].
  apply unused_name_fresh in Hn.
  injection Hc as -> <-.
  unfold store_upload in Hs. apply bind_returned_inv in Hs as (data & w3 & Hr & Hs).
  injection Hr as <- <-.
  unfold tmp_write in Hs.
  destruct (_ <=? _)%nat eqn:Hle; [|discriminate Hs].
  injection Hs as Hs. subst w0. simpl.
  apply Nat.leb_le in Hle. simpl in Hle.
  rewrite alter_insert_eq. simpl.
  repeat split; try reflexivity; assumption.
Qed.

Lemma save_upload_failed audio w e w0 :
  save_upload audio w = (Raised e, w0) →
  trace w0 = trace w ∧ whisper_model w0 = whisper_model w ∧
  free_space w0 = free_space w ∧
  (∀ p, is_Some (files w !! p) → files w0 !! p = files w !! p) ∧
  ((opt_truthy (filename audio) = false ∧
    e = HTTPException 400 "No audio file provided" ∧ w0 = w) ∨
   (opt_truthy (filename audio) = true ∧ ∃ n s, e = OSError n s None)).
Proof.
  unfold save_upload. rewrite run_bind. unfold create_tempfile.
  destruct (opt_truthy (filename audio)); simpl.
  2:{ intros [= <- <-]. repeat split; try reflexivity. left. repeat split. }
  unfold NamedTemporaryFile.
  destruct (unused_name _ _ _ _) as [[name seq]|] eqn:Hn.
  2:{ intros [= <- <-]. simpl. repeat split; try reflexivity.
      right. split; [reflexivity|]. eexists _, _. reflexivity. }
  apply unused_name_fresh in Hn.
  rewrite run_bind. unfold store_upload. rewrite run_bind. unfold upload_read, ret.
  unfold tmp_write. cbv beta iota.
  destruct (_ <=? _)%nat; simpl; [discriminate|].
  intros [= <- <-]. simpl. repeat split; try reflexivity.
  - intros p [data Hp]. apply lookup_insert_ne. intros <-. congruence.
  - right. split; [reflexivity|]. eexists _, _. reflexivity.
Qed.

Lemma whisper_attempt_run tmp w :
  whisper_attempt tmp w =
  match get_whisper_model w with
  | (Raised e, w1) =>
      (Raised (HTTPException 500 ("Transcription failed: " +:+ str_exn e)), w1)
  | (Returned m, w1) =>
      match whisper_transcribe m tmp (files w1) (ext w1) with
      | (Raised e, x) =>
          (Raised (HTTPException 500 ("Transcription failed: " +:+ str_exn e)),
           external x (EvTranscribe tmp) w1)
      | (Returned result, x) =>
          match result !! "text" with
          | Some t =>
              (Returned {| tr_success := true; tr_text := t;
                           tr_language := default "unknown" (result !! "language") |},
               external x (EvTranscribe tmp) w1)
          | None =>
              (Raised (HTTPException 500
                 ("Transcription failed: " +:+ str_exn (KeyError "text"))),
               external x (EvTranscribe tmp) w1)
          end
      end
  end.
Proof.
  unfold whisper_attempt, try_except. rewrite run_bind.
  destruct (get_whisper_model w) as [[m|e] w1]; [|reflexivity].
  rewrite run_bind. unfold transcribe.
  destruct (whisper_transcribe m tmp (files w1) (ext w1)) as [[result|e] x];
    [|reflexivity].
  rewrite run_bind. unfold dict_getitem.
  destruct (result !! "text"); reflexivity.
Qed.

(** The calls made by the [try] block, and what it leaves of the world. *)
Lemma whisper_attempt_events tmp w :
  ∃ evs,
    trace (snd (whisper_attempt tmp w)) = trace w ++ evs ∧
    free_space (snd (whisper_attempt tmp w)) = free_space w ∧
    environ (snd (whisper_attempt tmp w)) = environ w ∧
    (∃ name, evs = [EvLoadModel name false] ∨
             evs = [EvLoadModel name true; EvTranscribe tmp] ∨
             evs = [EvTranscribe tmp]).
Proof.
  rewrite whisper_attempt_run.
  destruct (whisper_model w) as [m|] eqn:E.
  - rewrite (get_whisper_model_loaded _ _ E).
    exists [EvTranscribe tmp].
    destruct (whisper_transcribe m tmp (files w) (ext w)) as [[result|e] x];
      [destruct (result !! "text")|]; simpl;
      (repeat split; try reflexivity; exists ""; right; right; reflexivity).
  - rewrite (get_whisper_model_first _ E). cbv zeta.
    destruct (whisper_load_model _ _) as [[m|e] x].
    + eexists [EvLoadModel _ true; EvTranscribe tmp].
      destruct (whisper_transcribe m tmp _ _) as [[result|e] x1];
        [destruct (result !! "text")|]; simpl; rewrite <- app_assoc;
        (repeat split; try reflexivity; eexists; right; left; reflexivity).
    + eexists [EvLoadModel _ false]. simpl.
      repeat split; try reflexivity. eexists. left. reflexivity.
Qed.

Lemma get_whisper_model_returned_handle w m w1 :
  get_whisper_model w = (Returned m, w1) →
  whisper_model w1 = Some m ∧ files w1 = files w ∧ locked w1 = locked w.
Proof.
  destruct (whisper_model w) as [m0|] eqn:E.
  - rewrite (get_whisper_model_loaded _ _ E). intros [= <- <-]. auto.
  - rewrite (get_whisper_model_first _ E). cbv zeta.
    destruct (whisper_load_model _ _) as [[m1|e] x]; [|discriminate].
    intros [= <- <-]. auto.
Qed.

(** With the stored file in place and not locked, the [finally] removes it
    and gives its space back, whatever the [try] block settled. *)
Lemma transcribe_stored_unlocked tmp w0 data :
  files w0 !! tmp = Some data → tmp ∉ locked w0 →
  transcribe_stored tmp w0 =
  (fst (whisper_attempt tmp w0),
   record_event (EvUnlink tmp true)
     (set_disk (delete tmp (files w0)) (free_space w0 + length data)%nat
        (snd (whisper_attempt tmp w0)))).
Proof.
  intros Hf NL. rewrite transcribe_stored_run.
  destruct (whisper_attempt_disk tmp w0) as [Hfs Hl].
  destruct (whisper_attempt_events tmp w0) as (evs & _ & Hfree & _).
  unfold os_unlink. rewrite Hfs, Hf, Hl, Hfree.
  destruct (decide (tmp ∈ locked w0)); [contradiction|]. reflexivity.
Qed.

Lemma transcribe_stored_events tmp w0 :
  ∃ name ok,
    trace (snd (transcribe_stored tmp w0)) = trace w0 ++ [EvLoadModel name false; EvUnlink tmp ok] ∨
    trace (snd (transcribe_stored tmp w0))
      = trace w0 ++ [EvLoadModel name true; EvTranscribe tmp; EvUnlink tmp ok] ∨
    trace (snd (transcribe_stored tmp w0)) = trace w0 ++ [EvTranscribe tmp; EvUnlink tmp ok].
Proof.
  rewrite transcribe_stored_run.
  destruct (whisper_attempt_events tmp w0) as (evs & Ht & _ & _ & name & Hev).
  destruct (os_unlink_spec tmp (snd (whisper_attempt tmp w0))) as ([ok Hu] & _).
  exists name, ok.
  assert (trace (snd (match os_unlink tmp (snd (whisper_attempt tmp w0)) with
                      | (Returned _, w2) => (fst (whisper_attempt tmp w0), w2)
                      | (Raised e, w2) => (Raised e, w2)
                      end)) = trace w0 ++ evs ++ [EvUnlink tmp ok]) as ->.
  { destruct (os_unlink tmp (snd (whisper_attempt tmp w0))) as [[u|e] w2];
      simpl in *; rewrite Hu, Ht, <- app_assoc; reflexivity. }
  destruct Hev as [-> | [-> | ->]]; simpl; auto.
Qed.

Lemma network_calls_app tr1 tr2 :
  network_calls (tr1 ++ tr2) = network_calls tr1 ++ network_calls tr2.
Proof. apply List.filter_app. Qed.

Lemma transcribe_audio_no_network_call audio w :
  network_calls (trace (snd (transcribe_audio audio w))) = network_calls (trace w).
Proof.
  rewrite transcribe_audio_parts, run_bind.
  destruct (save_upload audio w) as [[tmp|e] w0] eqn:Hs.
  - destruct (save_upload_stored _ _ _ _ Hs) as (_ & _ & _ & _ & _ & _ & Ht & _).
    destruct (transcribe_stored_events tmp w0) as (name & ok & [E | [E | E]]);
      rewrite E, network_calls_app, Ht; simpl; apply app_nil_r.
  - destruct (save_upload_failed _ _ _ _ Hs) as (Ht & _). simpl. rewrite Ht. reflexivity.
Qed.

(** The calls of the stored part of the handler, by the state of the handle. *)
Lemma transcribe_stored_events_by_handle tmp w0 :
  ∃ ok,
    match whisper_model w0 with
    | Some _ =>
        trace (snd (transcribe_stored tmp w0))
        = trace w0 ++ [EvTranscribe tmp; EvUnlink tmp ok]
    | None =>
        trace (snd (transcribe_stored tmp w0))
        = trace w0 ++ [EvLoadModel (default "base" (environ w0 !! "WHISPER_MODEL")) false;
                       EvUnlink tmp ok] ∨
        trace (snd (transcribe_stored tmp w0))
        = trace w0 ++ [EvLoadModel (default "base" (environ w0 !! "WHISPER_MODEL")) true;
                       EvTranscribe tmp; EvUnlink tmp ok]
    end.
Proof.
  rewrite transcribe_stored_run.
  destruct (os_unlink_spec tmp (snd (whisper_attempt tmp w0))) as ([ok Hu] & _).
  exists ok.
  assert (trace (snd (match os_unlink tmp (snd (whisper_attempt tmp w0)) with
                      | (Returned _, w2) => (fst (whisper_attempt tmp w0), w2)
                      | (Raised e, w2) => (Raised e, w2)
                      end))
          = trace (snd (whisper_attempt tmp w0)) ++ [EvUnlink tmp ok]) as ->.
  { destruct (os_unlink tmp (snd (whisper_attempt tmp w0))) as [[u|e] w2]; exact Hu. }
  rewrite whisper_attempt_run.
  destruct (whisper_model w0) as [m|] eqn:E.
  - rewrite (get_whisper_model_loaded _ _ E).
    destruct (whisper_transcribe m tmp (files w0) (ext w0)) as [[result|e] x];
      [destruct (result !! "text")|]; simpl; rewrite <- app_assoc; reflexivity.
  - rewrite (get_whisper_model_first _ E). cbv zeta.
    destruct (whisper_load_model _ _) as [[m|e] x].
    + right.
      destruct (whisper_transcribe m tmp _ _) as [[result|e] x1];
        [destruct (result !! "text")|]; simpl; rewrite <- !app_assoc; reflexivity.
    + left. simpl. rewrite <- app_assoc. reflexivity.
Qed.

(** X1. A [/transcribe] request whose upload could not be stored makes
    no call at all.  One whose upload was stored calls [os.unlink] last,
    once, on the path it gave the model; before that, with the handle set,
    [model.transcribe] once and nothing else; with the handle empty,
    [whisper.load_model] once, for the configured model, followed by
    [model.transcribe] once if and only if the load completed. *)
Theorem transcribe_audio_calls (audio : UploadFile) (w : World) :
  ∃ evs,
    trace (snd (transcribe_audio audio w)) = trace w ++ evs ∧
    match fst (save_upload audio w) with
    | Raised _ => evs = []
    | Returned tmp =>
        ∃ ok,
          match whisper_model w with
          | Some _ => evs = [EvTranscribe tmp; EvUnlink tmp ok]
          | None =>
              evs = [EvLoadModel (default "base" (environ w !! "WHISPER_MODEL")) false;
                     EvUnlink tmp ok] ∨
              evs = [EvLoadModel (default "base" (environ w !! "WHISPER_MODEL")) true;
                     EvTranscribe tmp; EvUnlink tmp ok]
          end
    end.
Proof.
  rewrite transcribe_audio_parts, run_bind.
  destruct (save_upload audio w) as [[tmp|e] w0] eqn:Hs; cbn [fst].
  - destruct (save_upload_stored _ _ _ _ Hs)
      as (_ & _ & _ & _ & _ & _ & Ht & Hm & He & _).
    destruct (transcribe_stored_events_by_handle tmp w0) as [ok Hev].
    rewrite Hm, He, Ht in Hev.
    destruct (whisper_model w) as [m|].
    + eexists. split; [exact Hev|]. exists ok. reflexivity.
    + destruct Hev as [Hev | Hev]; (eexists; split; [exact Hev|]); exists ok; auto.
  - destruct (save_upload_failed _ _ _ _ Hs) as (Ht & _). simpl.
    exists []. rewrite app_nil_r. auto.
Qed.

(** X2. A [/transcribe] response comes from one run of the loaded model on
    a file that holds exactly the uploaded bytes: [text] is the result's
    [text] entry, [language] its [language] entry, or ["unknown"] when the
    result has none, and the model used is the one the handle now holds. *)
Theorem transcribe_audio_response (audio : UploadFile) (w w' : World)
    (body : TranscribeResponse) :
  transcribe_audio audio w = (Returned body, w') →
  ∃ tmp m fs x0 result x,
    fs !! tmp = Some (file_content audio) ∧
    whisper_transcribe m tmp fs x0 = (Returned result, x) ∧
    whisper_model w' = Some m ∧
    tr_success body = true ∧
    result !! "text" = Some (tr_text body) ∧
    tr_language body = default "unknown" (result !! "language").
Proof.
  rewrite transcribe_audio_parts. intros E.
  apply bind_returned_inv in E as (tmp & w0 & Hs & E).
  destruct (save_upload_stored _ _ _ _ Hs) as (_ & _ & Hf & _).
  rewrite transcribe_stored_run in E.
  destruct (os_unlink tmp (snd (whisper_attempt tmp w0))) as [[[]|e] w2] eqn:Hu;
    [|discriminate E].
  injection E as Ha <-.
  assert (whisper_model w2 = whisper_model (snd (whisper_attempt tmp w0))) as Hm.
  { revert Hu. unfold os_unlink, record_event.
    destruct (files _ !! tmp); [destruct (decide _)|]; intros [= <-]; reflexivity. }
  rewrite Hm. clear Hu Hm.
  rewrite whisper_attempt_run in Ha |- *.
  destruct (get_whisper_model w0) as [[m|e] w1] eqn:Hg; [|discriminate Ha].
  destruct (get_whisper_model_returned_handle _ _ _ Hg) as (Hh & Hfs & _).
  destruct (whisper_transcribe m tmp (files w1) (ext w1)) as [[result|e] x] eqn:Ht;
    [|discriminate Ha].
  destruct (result !! "text") as [t|] eqn:Htext; [|discriminate Ha].
  simpl in Ha. injection Ha as <-. simpl.
  exists tmp, m, (files w1), (ext w1), result, x.
  repeat split; try assumption.
  rewrite Hfs, Hf. apply lookup_insert_eq.
Qed.

(** X3. When [whisper.load_model] raises, the request is answered 500 with
    ["Transcription failed: "] and the loader's message; the model is not
    run, the handle stays empty (so the next request tries the load again),
    and the temporary file is removed, leaving the files as they were. *)
Theorem load_failure_is_reported (audio : UploadFile) (w w0 : World) (tmp : string)
    (e : exn) (x : Ext) :
  save_upload audio w = (Returned tmp, w0) →
  whisper_model w = None →
  whisper_load_model (default "base" (environ w !! "WHISPER_MODEL")) (ext w) = (Raised e, x) →
  tmp ∉ locked w →
  fst (transcribe_audio audio w)
    = Raised (HTTPException 500 ("Transcription failed: " +:+ str_exn e)) ∧
  whisper_model (snd (transcribe_audio audio w)) = None ∧
  trace (snd (transcribe_audio audio w))
    = trace w ++ [EvLoadModel (default "base" (environ w !! "WHISPER_MODEL")) false;
                  EvUnlink tmp true] ∧
  files (snd (transcribe_audio audio w)) = files w.
Proof.
  intros Hs Hm Hl NL.
  destruct (save_upload_stored _ _ _ _ Hs)
    as (_ & Hfresh & Hf & _ & _ & Hlk & Ht & Hm0 & Henv & Hext).
  rewrite (transcribe_audio_stored _ _ _ _ Hs).
  rewrite (transcribe_stored_unlocked tmp w0 (file_content audio)).
  2:{ rewrite Hf. apply lookup_insert_eq. }
  2:{ rewrite Hlk. exact NL. }
  rewrite whisper_attempt_run, get_whisper_model_first by congruence.
  cbv zeta. rewrite Henv, Hext, Hl. simpl.
  split; [reflexivity|]. split; [congruence|].
  split; [rewrite Ht, <- app_assoc; reflexivity|].
  rewrite Hf, delete_insert_eq. apply delete_id, Hfresh.
Qed.

Lemma os_unlink_returned path w u w2 :
  os_unlink path w = (Returned u, w2) →
  ∃ data, files w !! path = Some data ∧ (path ∉ locked w) ∧
          w2 = record_event (EvUnlink path true)
                 (set_disk (delete path (files w)) (free_space w + length data)%nat w).
Proof.
  unfold os_unlink.
  destruct (files w !! path) as [data|]; [|discriminate].
  destruct (decide (path ∈ locked w)) as [L|NL]; [discriminate|].
  intros [= <-]. exists data. auto.
Qed.

Lemma os_unlink_other_files path w p :
  p ≠ path → files (snd (os_unlink path w)) !! p = files w !! p.
Proof.
  intros Hp. unfold os_unlink, record_event.
  destruct (files w !! path); [destruct (decide _)|]; simpl; try reflexivity.
  apply lookup_delete_ne. congruence.
Qed.

Lemma transcribe_stored_other_files tmp w0 p :
  p ≠ tmp → files (snd (transcribe_stored tmp w0)) !! p = files w0 !! p.
Proof.
  intros Hp. rewrite transcribe_stored_run.
  destruct (whisper_attempt_disk tmp w0) as [Hfs _].
  pose proof (os_unlink_other_files tmp (snd (whisper_attempt tmp w0)) p Hp) as Hu.
  destruct (os_unlink tmp (snd (whisper_attempt tmp w0))) as [[u|e] w2];
    simpl in *; rewrite Hu, Hfs; reflexivity.
Qed.

(** What a request that was not refused can answer. *)
Lemma transcribe_audio_named_outcome audio w :
  opt_truthy (filename audio) = true →
  is_returned (fst (transcribe_audio audio w)) = true ∨
  (∃ n s f, fst (transcribe_audio audio w) = Raised (OSError n s f)) ∨
  (∃ cause, fst (transcribe_audio audio w)
            = Raised (HTTPException 500 ("Transcription failed: " +:+ cause))).
Proof.
  intros Hn. rewrite transcribe_audio_parts, run_bind.
  destruct (save_upload audio w) as [[tmp|e] w0] eqn:Hs.
  - rewrite transcribe_stored_run.
    destruct (os_unlink_spec tmp (snd (whisper_attempt tmp w0))) as (_ & _ & Hos).
    destruct (os_unlink tmp (snd (whisper_attempt tmp w0))) as [[u|e] w2]; simpl in *.
    + destruct (whisper_attempt_outcome tmp w0) as [Hr | [e0 Hr]]; [left; exact Hr|].
      right. right. exists (str_exn e0). exact Hr.
    + destruct (Hos e eq_refl) as (n & s & ->). right. left. eauto.
  - destruct (save_upload_failed _ _ _ _ Hs) as (_ & _ & _ & _ & [(Hf & _) | (_ & n & s & ->)]).
    + congruence.
    + right. left. simpl. eauto.
Qed.

(** X4. With the model loaded, a failing [model.transcribe] is answered
    500 with ["Transcription failed: "] and the library's message; the
    model stays loaded and the temporary file is removed, leaving the files
    as they were. *)
Theorem transcription_error_is_reported (audio : UploadFile) (w w0 : World)
    (tmp : string) (m : Model) (e : exn) (x : Ext) :
  save_upload audio w = (Returned tmp, w0) →
  whisper_model w = Some m →
  whisper_transcribe m tmp (<[tmp := file_content audio]> (files w)) (ext w)
    = (Raised e, x) →
  tmp ∉ locked w →
  fst (transcribe_audio audio w)
    = Raised (HTTPException 500 ("Transcription failed: " +:+ str_exn e)) ∧
  whisper_model (snd (transcribe_audio audio w)) = Some m ∧
  trace (snd (transcribe_audio audio w))
    = trace w ++ [EvTranscribe tmp; EvUnlink tmp true] ∧
  files (snd (transcribe_audio audio w)) = files w.
Proof.
  intros Hs Hm Hr NL.
  destruct (save_upload_stored _ _ _ _ Hs)
    as (_ & Hfresh & Hf & _ & _ & Hlk & Ht & Hm0 & Henv & Hext).
  rewrite (transcribe_audio_stored _ _ _ _ Hs).
  rewrite (transcribe_stored_unlocked tmp w0 (file_content audio)).
  2:{ rewrite Hf. apply lookup_insert_eq. }
  2:{ rewrite Hlk. exact NL. }
  rewrite whisper_attempt_run, (get_whisper_model_loaded w0 m) by congruence.
  rewrite Hf, Hext, Hr. simpl.
  split; [reflexivity|]. split; [congruence|].
  split; [rewrite Ht, <- app_assoc; reflexivity|].
  rewrite delete_insert_eq. apply delete_id, Hfresh.
Qed.

(** X5. A model result without a [text] entry is answered 500 with the
    detail ["Transcription failed: 'text'"], the str() of the [KeyError],
    whether the model was loaded before or by this request; the temporary
    file is removed all the same. *)
Theorem result_without_text_is_reported (audio : UploadFile) (w w0 w1 : World)
    (tmp : string) (m : Model) (result : gmap string string) (x : Ext) :
  save_upload audio w = (Returned tmp, w0) →
  get_whisper_model w0 = (Returned m, w1) →
  whisper_transcribe m tmp (files w1) (ext w1) = (Returned result, x) →
  result !! "text" = None →
  tmp ∉ locked w →
  fst (transcribe_audio audio w)
    = Raised (HTTPException 500 "Transcription failed: 'text'") ∧
  files (snd (transcribe_audio audio w)) = files w.
Proof.
  intros Hs Hg Hr Hno NL.
  destruct (save_upload_stored _ _ _ _ Hs)
    as (_ & Hfresh & Hf & _ & _ & Hlk & Ht & Hm0 & Henv & Hext).
  rewrite (transcribe_audio_stored _ _ _ _ Hs).
  rewrite (transcribe_stored_unlocked tmp w0 (file_content audio)).
  2:{ rewrite Hf. apply lookup_insert_eq. }
  2:{ rewrite Hlk. exact NL. }
  rewrite whisper_attempt_run, Hg, Hr, Hno. simpl.
  split; [reflexivity|].
  rewrite Hf, delete_insert_eq. apply delete_id, Hfresh.
Qed.

Lemma create_tempfile_files audio w :
  match fst (create_tempfile audio w) with
  | Returned tmp =>
      files w !! tmp = None ∧
      files (snd (create_tempfile audio w)) = <[tmp := []]> (files w)
  | Raised _ => files (snd (create_tempfile audio w)) = files w
  end.
Proof.
  unfold create_tempfile. destruct (negb _); [reflexivity|].
  unfold NamedTemporaryFile.
  destruct (unused_name _ _ _ _) as [[name seq]|] eqn:Hn; simpl; [|reflexivity].
  split; [exact (unused_name_fresh _ _ _ _ _ _ Hn) | reflexivity].
Qed.

Lemma store_upload_run audio tmp w :
  store_upload audio tmp w
  = if (length (file_content audio) <=? free_space w)%nat
    then (Returned tt,
          set_disk (alter (λ old, old ++ file_content audio) tmp (files w))
                   (free_space w - length (file_content audio))%nat w)
    else (Raised (OSError 28 "No space left on device" None), w).
Proof. reflexivity. Qed.

Lemma store_upload_other_files audio tmp w p :
  p ≠ tmp → files (snd (store_upload audio tmp w)) !! p = files w !! p.
Proof.
  intros Hp. rewrite store_upload_run.
  destruct (_ <=? _)%nat; simpl; [|reflexivity].
  apply lookup_alter_ne. congruence.
Qed.

Lemma transcribe_audio_other_files audio w p :
  fst (create_tempfile audio w) ≠ Returned p →
  files (snd (transcribe_audio audio w)) !! p = files w !! p.
Proof.
  intros Hp. rewrite transcribe_audio_parts. unfold save_upload. rewrite !run_bind.
  pose proof (create_tempfile_files audio w) as Hc.
  destruct (create_tempfile audio w) as [[tmp|e] w1]; simpl in Hc, Hp.
  2:{ simpl. rewrite Hc. reflexivity. }
  destruct Hc as [_ Hc].
  assert (p ≠ tmp) as Hne by congruence.
  rewrite ?run_bind.
  pose proof (store_upload_other_files audio tmp w1 p Hne) as Hst.
  destruct (store_upload audio tmp w1) as [[[]|e] w2]; simpl in Hst.
  - rewrite ?run_bind. cbv beta iota delta [ret].
    rewrite (transcribe_stored_other_files _ _ _ Hne), Hst, Hc.
    apply lookup_insert_ne. congruence.
  - simpl. rewrite Hst, Hc. apply lookup_insert_ne. congruence.
Qed.

(** X6. Whatever the outcome, [/transcribe] leaves every file that was on
    disk before the request as it was, and the only path whose content can
    differ afterwards is the temporary file it created, under a name that
    was unused. *)
Theorem transcribe_audio_spares_files (audio : UploadFile) (w : World) (p : string) :
  (is_Some (files w !! p) →
   files (snd (transcribe_audio audio w)) !! p = files w !! p) ∧
  (files (snd (transcribe_audio audio w)) !! p ≠ files w !! p →
   files w !! p = None ∧ fst (create_tempfile audio w) = Returned p).
Proof.
  pose proof (create_tempfile_files audio w) as Hc.
  pose proof (transcribe_audio_other_files audio w p) as Ho.
  destruct (fst (create_tempfile audio w)) as [tmp|e] eqn:E.
  - destruct Hc as [Hfresh _].
    destruct (decide (p = tmp)) as [-> | Hne].
    + split; [|intros _; split; [exact Hfresh | reflexivity]].
      intros [data Hd]. congruence.
    + assert (files (snd (transcribe_audio audio w)) !! p = files w !! p) as Heq
        by (apply Ho; congruence).
      split; [intros _; exact Heq | intros Hd; contradiction].
  - assert (files (snd (transcribe_audio audio w)) !! p = files w !! p) as Heq
      by (apply Ho; discriminate).
    split; [intros _; exact Heq | intros Hd; contradiction].
Qed.

(** X7. With the model already loaded, when [/transcribe] ends with a
    response or with an [HTTPException] (the 400 of a missing filename, the
    500 of a failed transcription), the disk is as before the request: the
    same files and the same free space. *)
Theorem transcribe_audio_restores_disk (audio : UploadFile) (w : World) :
  loaded w →
  (is_returned (fst (transcribe_audio audio w)) = true ∨
   ∃ c d, fst (transcribe_audio audio w) = Raised (HTTPException c d)) →
  files (snd (transcribe_audio audio w)) = files w ∧
  free_space (snd (transcribe_audio audio w)) = free_space w.
Proof.
  intros _. rewrite transcribe_audio_parts, run_bind.
  destruct (save_upload audio w) as [[tmp|e] w0] eqn:Hs.
  - destruct (save_upload_stored _ _ _ _ Hs) as (_ & Hfresh & Hf & Hle & Hfree & _).
    rewrite transcribe_stored_run.
    destruct (whisper_attempt_disk tmp w0) as [Hfs _].
    destruct (whisper_attempt_events tmp w0) as (evs & _ & Hfr & _).
    destruct (os_unlink_spec tmp (snd (whisper_attempt tmp w0))) as (_ & _ & Hos).
    destruct (os_unlink tmp (snd (whisper_attempt tmp w0))) as [[u|e] w2] eqn:Hu;
      simpl.
    + intros _. apply os_unlink_returned in Hu as (data & Hd & _ & ->). simpl.
      rewrite Hfs, Hf, lookup_insert_eq in Hd. injection Hd as <-.
      rewrite Hfs, Hf, delete_insert_eq, Hfr, Hfree.
      split; [apply delete_id, Hfresh | lia].
    + destruct (Hos e eq_refl) as (n & s & ->).
      intros [Hr | (c & d & Hr)]; discriminate Hr.
  - destruct (save_upload_failed _ _ _ _ Hs)
      as (_ & _ & _ & _ & [(_ & _ & ->) | (_ & n & s & ->)]); simpl.
    + auto.
    + intros [Hr | (c & d & Hr)]; discriminate Hr.
Qed.

(** X8. [transcribe_audio] raises an [HTTPException] with status 400
    when it is called with an upload whose filename is absent or empty, and
    in no other case. *)
Theorem transcribe_audio_400_only_without_filename (audio : UploadFile) (w : World) :
  (∃ detail, fst (transcribe_audio audio w) = Raised (HTTPException 400 detail))
  ↔ opt_truthy (filename audio) = false.
Proof.
  split.
  - intros [detail Hr]. destruct (opt_truthy (filename audio)) eqn:Hn; [|reflexivity].
    destruct (transcribe_audio_named_outcome audio w Hn)
      as [Ho | [(n & s & f & Ho) | (cause & Ho)]]; rewrite Hr in Ho; discriminate Ho.
  - intros Hn. exists "No audio file provided".
    unfold transcribe_audio. rewrite Hn. reflexivity.
Qed.


(** ** More on the enhancement handler *)

Lemma enhance_text_named_outcome request w :
  is_returned (fst (enhance_text request w)) = true ∨
  ∃ cause, fst (enhance_text request w)
           = Raised (HTTPException 500 ("Enhancement failed: " +:+ cause)).
Proof.
  destruct (opt_truthy (environ w !! "ANTHROPIC_API_KEY")) eqn:K.
  - rewrite (enhance_text_key _ _ K). cbv zeta.
    destruct (anthropic_messages_create _ _ _) as [[msg|e] x]; simpl.
    + destruct (message_content msg) as [|[t|ty] rest]; simpl; eauto.
    + eauto.
  - rewrite (enhance_text_no_key _ _ K). simpl. eauto.
Qed.

Lemma enhance_text_frame request w :
  files (snd (enhance_text request w)) = files w ∧
  free_space (snd (enhance_text request w)) = free_space w ∧
  names_drawn (snd (enhance_text request w)) = names_drawn w ∧
  locked (snd (enhance_text request w)) = locked w ∧
  whisper_model (snd (enhance_text request w)) = whisper_model w ∧
  environ (snd (enhance_text request w)) = environ w.
Proof.
  destruct (opt_truthy (environ w !! "ANTHROPIC_API_KEY")) eqn:K.
  - rewrite (enhance_text_key _ _ K). cbv zeta.
    destruct (anthropic_messages_create _ _ _) as [r x]. simpl. repeat split.
  - rewrite (enhance_text_no_key _ _ K). simpl. repeat split.
Qed.

(** X9. [/enhance] answers 200 or 500 and nothing else: whatever goes
    wrong (no credential, a failing API call, an unusable reply) reaches the
    caller as an [HTTPException] 500 whose detail starts with
    ["Enhancement failed: "]. *)
Theorem enhance_text_status (request : EnhanceRequest) (w : World) :
  (http_status (fst (enhance_text request w)) = 200 ∨
   http_status (fst (enhance_text request w)) = 500) ∧
  ∀ e, fst (enhance_text request w) = Raised e →
       ∃ cause, e = HTTPException 500 ("Enhancement failed: " +:+ cause).
Proof.
  destruct (enhance_text_named_outcome request w) as [Hr | [cause Hr]].
  - destruct (fst (enhance_text request w)); [|discriminate Hr].
    split; [left; reflexivity | discriminate].
  - rewrite Hr. split; [right; reflexivity|].
    intros e [= <-]. exists cause. reflexivity.
Qed.

(** X10. A reply the handler cannot read is a failed enhancement, after
    the call was made: an empty [content] list is answered 500 with
    ["Enhancement failed: list index out of range"], and a first block that
    is not a text block with the [AttributeError] naming its type. *)
Theorem unreadable_reply_is_reported (request : EnhanceRequest) (w : World)
    (msg : Message) (x : Ext) :
  opt_truthy (environ w !! "ANTHROPIC_API_KEY") = true →
  anthropic_messages_create
    {| api_key := default "" (environ w !! "ANTHROPIC_API_KEY") |}
    (enhance_call request) (ext w) = (Returned msg, x) →
  trace (snd (enhance_text request w))
    = trace w ++ [EvMessagesCreate (enhance_call request)] ∧
  (message_content msg = [] →
   fst (enhance_text request w)
     = Raised (HTTPException 500 "Enhancement failed: list index out of range")) ∧
  (∀ ty rest, message_content msg = OtherBlock ty :: rest →
   fst (enhance_text request w)
     = Raised (HTTPException 500
         ("Enhancement failed: '" +:+ ty +:+ "' object has no attribute 'text'"))).
Proof.
  intros K E. rewrite (enhance_text_key _ _ K). cbv zeta. rewrite E. simpl.
  split; [reflexivity|]. split.
  - intros ->. reflexivity.
  - intros ty rest ->. reflexivity.
Qed.

(** X11. [/enhance] touches nothing of the process but the network: the
    files, the free space, the temporary-name generator, the model handle
    and the environment are as before, whether it returns or raises. *)
Theorem enhance_text_leaves_process_state (request : EnhanceRequest) (w : World) :
  files (snd (enhance_text request w)) = files w ∧
  free_space (snd (enhance_text request w)) = free_space w ∧
  names_drawn (snd (enhance_text request w)) = names_drawn w ∧
  whisper_model (snd (enhance_text request w)) = whisper_model w ∧
  environ (snd (enhance_text request w)) = environ w ∧
  load_calls (trace (snd (enhance_text request w))) = load_calls (trace w).
Proof.
  destruct (enhance_text_frame request w) as (Hf & Hfr & Hn & _ & Hm & He).
  repeat (split; [assumption|]).
  destruct (opt_truthy (environ w !! "ANTHROPIC_API_KEY")) eqn:K.
  - rewrite (enhance_text_key _ _ K). cbv zeta.
    destruct (anthropic_messages_create _ _ _) as [r x]. simpl.
    rewrite load_calls_snoc. simpl. apply app_nil_r.
  - rewrite (enhance_text_no_key _ _ K). reflexivity.
Qed.

(** ** More on the composition *)

Lemma transcribe_audio_returned_loaded audio w body w1 :
  transcribe_audio audio w = (Returned body, w1) → loaded w1.
Proof.
  rewrite transcribe_audio_parts. intros E.
  apply bind_returned_inv in E as (tmp & w0 & _ & E).
  exact (transcribe_stored_returned _ _ _ _ E).
Qed.

(** X12. When the transcription step fails, [/transcribe-and-enhance]
    fails with that very exception and stops there: the enhancement is not
    attempted, so no network call is made. *)
Theorem transcribe_and_enhance_stops_at_transcription_error (audio : UploadFile)
    (t : string) (w w1 : World) (e : exn) :
  transcribe_audio audio w = (Raised e, w1) →
  transcribe_and_enhance audio t w = (Raised e, w1) ∧
  network_calls (trace w1) = network_calls (trace w).
Proof.
  intros E. split.
  - unfold transcribe_and_enhance. exact (run_bind_raised _ _ _ _ _ E).
  - pose proof (transcribe_audio_no_network_call audio w) as Hn.
    rewrite E in Hn. exact Hn.
Qed.

(** X13. When the enhancement fails after a successful transcription,
    [/transcribe-and-enhance] fails with the enhancement's 500 and the
    transcript is not part of the answer; the model stays loaded. *)
Theorem transcribe_and_enhance_discards_transcript (audio : UploadFile) (t : string)
    (w w1 w2 : World) (tr : TranscribeResponse) (e : exn) :
  transcribe_audio audio w = (Returned tr, w1) →
  enhance_text {| text := tr_text tr; task := t |} w1 = (Raised e, w2) →
  transcribe_and_enhance audio t w = (Raised e, w2) ∧
  (∃ cause, e = HTTPException 500 ("Enhancement failed: " +:+ cause)) ∧
  http_status (fst (transcribe_and_enhance audio t w)) = 500 ∧
  loaded w2.
Proof.
  intros Htr Hen.
  assert (transcribe_and_enhance audio t w = (Raised e, w2)) as Hc.
  { unfold transcribe_and_enhance. rewrite (run_bind_returned _ _ _ _ _ Htr).
    cbv zeta. exact (run_bind_raised _ _ _ _ _ Hen). }
  assert (∃ cause, e = HTTPException 500 ("Enhancement failed: " +:+ cause)) as Hcause.
  { destruct (enhance_text_named_outcome {| text := tr_text tr; task := t |} w1)
      as [Hr | [cause Hr]]; rewrite Hen in Hr; simpl in Hr; [discriminate Hr|].
    injection Hr as ->. eauto. }
  split; [exact Hc|]. split; [exact Hcause|]. split.
  - rewrite Hc. destruct Hcause as [cause ->]. reflexivity.
  - unfold loaded.
    destruct (enhance_text_frame {| text := tr_text tr; task := t |} w1)
      as (_ & _ & _ & _ & Hm & _).
    rewrite Hen in Hm. simpl in Hm. rewrite Hm.
    exact (transcribe_audio_returned_loaded _ _ _ _ Htr).
Qed.

(** X14. [transcribe_and_enhance] raises an [HTTPException] with status
    400 when it is called with an upload whose filename is absent or empty,
    and in no other case: neither step uses that status for anything else. *)
Theorem transcribe_and_enhance_400_only_without_filename (audio : UploadFile)
    (t : string) (w : World) :
  (∃ detail, fst (transcribe_and_enhance audio t w) = Raised (HTTPException 400 detail))
  ↔ opt_truthy (filename audio) = false.
Proof.
  unfold transcribe_and_enhance. rewrite run_bind.
  split.
  - intros [detail Hr]. destruct (opt_truthy (filename audio)) eqn:Hn; [|reflexivity].
    pose proof (transcribe_audio_named_outcome audio w Hn) as Ho.
    destruct (transcribe_audio audio w) as [[tr|e] w1]; simpl in Ho.
    + cbv zeta in Hr. rewrite run_bind in Hr.
      pose proof (enhance_text_named_outcome {| text := tr_text tr; task := t |} w1) as Hen.
      destruct (enhance_text _ w1) as [[en|e] w2]; simpl in Hen, Hr; [discriminate Hr|].
      destruct Hen as [Hen | [cause Hen]]; [discriminate Hen|].
      injection Hr as ->. discriminate Hen.
    + simpl in Hr. injection Hr as ->.
      destruct Ho as [Ho | [(n & s & f & Ho) | (cause & Ho)]]; discriminate Ho.
  - intros Hn. exists "No audio file provided".
    assert (transcribe_audio audio w
            = (Raised (HTTPException 400 "No audio file provided"), w)) as ->.
    { unfold transcribe_audio. rewrite Hn. reflexivity. }
    reflexivity.
Qed.

(** X15. The last thing a successful [/transcribe-and-enhance] does is
    the one call to the completion API, and what it sends there is the
    prompt of the caller's task followed by exactly the text it returns as
    [raw_transcription]. *)
Theorem transcribe_and_enhance_sends_transcript (audio : UploadFile) (t : string)
    (w w' : World) (body : CombinedResponse) :
  transcribe_and_enhance audio t w = (Returned body, w') →
  last (trace w')
    = Some (EvMessagesCreate
              (enhance_call {| text := co_raw_transcription body; task := t |})) ∧
  length (network_calls (trace w')) = S (length (network_calls (trace w))).
Proof.
  unfold transcribe_and_enhance. intros E.
  apply bind_returned_inv in E as (tr & w1 & Htr & E).
  apply bind_returned_inv in E as (en & w2 & Hen & E).
  injection E as <- <-. simpl.
  pose proof (transcribe_audio_no_network_call audio w) as Hn.
  rewrite Htr in Hn. simpl in Hn.
  destruct (opt_truthy (environ w1 !! "ANTHROPIC_API_KEY")) eqn:K.
  - rewrite (enhance_text_key _ _ K) in Hen. cbv zeta in Hen.
    destruct (anthropic_messages_create _ _ _) as [r x].
    injection Hen as _ <-. simpl.
    split; [apply last_snoc|].
    rewrite network_calls_app, length_app, Hn. simpl. lia.
  - rewrite (enhance_text_no_key _ _ K) in Hen. discriminate Hen.
Qed.


(** ** Configuration *)

(** X16. No request changes the environment, and every call of
    [whisper.load_model], however many requests are served and however
    often the load fails, asks for the model named by [WHISPER_MODEL] as it
    was at the start, or ["base"] when it is unset. *)
Theorem serve_keeps_configuration (rqs : list request) (w : World) :
  environ (snd (serve rqs w)) = environ w ∧
  ∀ name ok,
    In (EvLoadModel name ok) (trace (snd (serve rqs w))) →
    In (EvLoadModel name ok) (trace w) ∨
    name = default "base" (environ w !! "WHISPER_MODEL").
Proof.
  apply (serve_preserves
           (λ w', environ w' = environ w ∧
                  ∀ name ok, In (EvLoadModel name ok) (trace w') →
                             In (EvLoadModel name ok) (trace w) ∨
                             name = default "base" (environ w !! "WHISPER_MODEL"))).
  - intros fs n w0 Hw0. exact Hw0.
  - intros n w0 Hw0. exact Hw0.
  - intros x ev w0 Hev [He Ht]. split; [exact He|].
    intros name ok Hin. simpl in Hin. apply in_app_iff in Hin as [Hin | [-> | []]].
    + exact (Ht name ok Hin).
    + discriminate Hev.
  - intros w0 [He Ht]. destruct (whisper_model w0) as [m|] eqn:E.
    + rewrite (get_whisper_model_loaded _ _ E). split; assumption.
    + rewrite (get_whisper_model_first _ E). cbv zeta.
      destruct (whisper_load_model _ _) as [[m|e] x]; simpl;
        (split; [exact He|]);
        intros name ok Hin; apply in_app_iff in Hin as [Hin | [[= <- <-] | []]];
        try exact (Ht name ok Hin); right; rewrite He; reflexivity.
  - split; [reflexivity|]. intros name ok Hin. left. exact Hin.
Qed.

Lemma str_split_nonempty sep s : str_split sep s ≠ [].
Proof.
  destruct s as [|a rest]; simpl; [discriminate|].
  destruct (Ascii.eqb a sep); [discriminate|].
  destruct (str_split sep rest); discriminate.
Qed.

Lemma str_split_join sep s :
  String.concat (String sep EmptyString) (str_split sep s) = s.
Proof.
  induction s as [|a rest IH]; simpl; [reflexivity|].
  pose proof (str_split_nonempty sep rest) as Hne.
  destruct (Ascii.eqb a sep) eqn:E.
  - apply Ascii.eqb_eq in E as ->.
    destruct (str_split sep rest) as [|piece pieces]; [contradiction|].
    rewrite <- IH. reflexivity.
  - destruct (str_split sep rest) as [|piece pieces]; [contradiction|].
    rewrite <- IH. destruct pieces; reflexivity.
Qed.

Lemma str_split_pieces sep s :
  Forall (λ piece, ¬ In sep (list_ascii_of_string piece)) (str_split sep s) ∧
  length (str_split sep s)
    = S (length (List.filter (Ascii.eqb sep) (list_ascii_of_string s))).
Proof.
  induction s as [|a rest [IHf IHl]]; simpl.
  - split; [repeat constructor; intros [] | reflexivity].
  - rewrite (Ascii.eqb_sym sep a).
    destruct (Ascii.eqb a sep) eqn:E; simpl.
    + split; [constructor; [intros [] | exact IHf] | rewrite IHl; reflexivity].
    + destruct (str_split sep rest) as [|piece pieces]; [discriminate IHl|].
      split; [|exact IHl].
      inversion IHf as [|? ? Hp Hps]; subst. constructor; [|exact Hps].
      simpl. intros [-> | Hin]; [|exact (Hp Hin)].
      rewrite Ascii.eqb_refl in E. discriminate E.
Qed.

(** X17. [ALLOWED_ORIGINS] loses nothing of the setting: joining the
    origins with commas gives back the value of the environment variable
    (or the built-in default), so empty entries and surrounding blanks are
    kept as they were written. *)
Theorem allowed_origins_join (env : gmap string string) :
  String.concat "," (ALLOWED_ORIGINS env)
  = default "http://localhost:5173,https://speechtotext07.netlify.app"
      (env !! "ALLOWED_ORIGINS").
Proof. apply str_split_join. Qed.

(** X18. [ALLOWED_ORIGINS] is never empty, none of its origins contains a
    comma, and there is one origin more than there are commas in the
    setting; an empty setting gives the single origin [""]. *)
Theorem allowed_origins_pieces (env : gmap string string) :
  ALLOWED_ORIGINS env ≠ [] ∧
  Forall (λ origin, ¬ In ","%char (list_ascii_of_string origin)) (ALLOWED_ORIGINS env) ∧
  length (ALLOWED_ORIGINS env)
    = S (length (List.filter (Ascii.eqb ",")
           (list_ascii_of_string
              (default "http://localhost:5173,https://speechtotext07.netlify.app"
                 (env !! "ALLOWED_ORIGINS"))))) ∧
  (env !! "ALLOWED_ORIGINS" = Some "" → ALLOWED_ORIGINS env = [""]).
Proof.
  unfold ALLOWED_ORIGINS.
  split; [apply str_split_nonempty|].
  split; [apply str_split_pieces|].
  split; [apply str_split_pieces|].
  intros ->. reflexivity.
Qed.

(** ** The one load *)

Lemma resumed_task_ok audio tmp : task_ok (resumed_task audio tmp).
Proof.
  apply task_ok_atomic.
  - apply stable_bind; [apply stable_store_upload|intros _; apply stable_transcribe_stored];
      auto using load_invariant_disk, load_invariant_names, load_invariant_external,
                 load_invariant_get_whisper_model.
  - apply stable_bind; [apply stable_store_upload|intros _; apply stable_transcribe_stored];
      auto using loaded_get_whisper_model.
  - intros m calls.
    apply stable_bind; [apply stable_store_upload|intros _; apply stable_transcribe_stored];
      auto using handle_kept_external, handle_kept_get_whisper_model.
  - intros w0 a w2 E. apply bind_returned_inv in E as (u & w3 & _ & E).
    exact (transcribe_stored_returned _ _ _ _ E).
Qed.

Lemma known_task_ok c : known_task c → task_ok c.
Proof.
  intros [audio | audio tmp | r].
  - apply transcribe_audio_task_ok.
  - apply resumed_task_ok.
  - constructor.
Qed.

Lemma resume_task_at {A} i (pool : list (coroutine A)) w c :
  pool !! i = Some c →
  resume_task i pool w =
  match c with
  | Awaiting k => (<[i := fst (k w)]> pool, snd (k w))
  | Finished _ => (pool, w)
  end.
Proof.
  intros E. unfold resume_task. rewrite E.
  destruct c as [r|k]; [reflexivity|]. destruct (k w); reflexivity.
Qed.

Lemma resume_task_missing {A} i (pool : list (coroutine A)) w :
  pool !! i = None → resume_task i pool w = (pool, w).
Proof. intros E. unfold resume_task. rewrite E. reflexivity. Qed.

Lemma resumed_task_run audio tmp w :
  ∃ r, atomic (store_upload audio tmp;; transcribe_stored tmp) w
       = (Finished r, snd ((store_upload audio tmp;; transcribe_stored tmp) w)).
Proof.
  unfold atomic.
  destruct ((store_upload audio tmp;; transcribe_stored tmp) w) as [r w1].
  exists r. reflexivity.
Qed.

Lemma fresh_task_run audio w :
  match create_tempfile audio w with
  | (Raised e, w1) => (Finished (Raised e) : coroutine TranscribeResponse, w1)
  | (Returned tmp, w1) => (resumed_task audio tmp, w1)
  end
  = (match fst (create_tempfile audio w) with
     | Raised e => Finished (Raised e)
     | Returned tmp => resumed_task audio tmp
     end, snd (create_tempfile audio w)).
Proof. destruct (create_tempfile audio w) as [[tmp|e] w1]; reflexivity. Qed.

(** Resuming a task of a pool of known tasks: what becomes of the pool and
    of the world. *)
Lemma resume_known i pool w :
  Forall known_task pool →
  Forall known_task (fst (resume_task i pool w)) ∧
  (snd (resume_task i pool w) = w ∧ fst (resume_task i pool w) = pool ∨
   (∃ audio, pool !! i = Some (transcribe_audio_task audio) ∧
             snd (resume_task i pool w) = snd (create_tempfile audio w) ∧
             fst (resume_task i pool w)
             = <[i := match fst (create_tempfile audio w) with
                      | Raised e => Finished (Raised e)
                      | Returned tmp => resumed_task audio tmp
                      end]> pool) ∨
   (∃ audio tmp r, pool !! i = Some (resumed_task audio tmp) ∧
             snd (resume_task i pool w)
             = snd ((store_upload audio tmp;; transcribe_stored tmp) w) ∧
             fst (resume_task i pool w) = <[i := Finished r]> pool)).
Proof.
  intros Hk. destruct (pool !! i) as [c|] eqn:E.
  2:{ rewrite (resume_task_missing _ _ _ E). auto. }
  assert (known_task c) as Hc by (rewrite Forall_lookup in Hk; exact (Hk i c E)).
  rewrite (resume_task_at _ _ _ _ E).
  destruct Hc as [audio | audio tmp | r].
  - unfold transcribe_audio_task. cbv beta.
    change (match create_tempfile audio w with
            | (Returned tmp, w1) =>
                (Awaiting (atomic (store_upload audio tmp;; transcribe_stored tmp)), w1)
            | (Raised e, w1) => (Finished (Raised e), w1)
            end)
      with (match create_tempfile audio w with
            | (Raised e, w1) => (Finished (Raised e) : coroutine TranscribeResponse, w1)
            | (Returned tmp, w1) => (resumed_task audio tmp, w1)
            end).
    rewrite (fresh_task_run audio w). simpl.
    split.
    + apply Forall_insert; [exact Hk|].
      destruct (fst (create_tempfile audio w)); constructor.
    + right. left. exists audio. auto.
  - unfold resumed_task.
    destruct (resumed_task_run audio tmp w) as [r ->]. simpl.
    split; [apply Forall_insert; [exact Hk | constructor]|].
    right. right. exists audio, tmp, r. auto.
  - simpl. auto.
Qed.

(** Any invariant of the handlers is an invariant of the event loop. *)
Lemma event_loop_preserves (I : World → Prop) schedule pool w :
  (∀ fs n w, I w → I (set_disk fs n w)) →
  (∀ n w, I w → I (set_names_drawn n w)) →
  (∀ x ev w, is_load ev = false → I w → I (external x ev w)) →
  stable I get_whisper_model →
  Forall known_task pool → I w → I (snd (event_loop schedule pool w)).
Proof.
  intros Hd Hn He Hm. revert pool w.
  induction schedule as [|i rest IH]; intros pool w Hk Hw; simpl; [exact Hw|].
  destruct (resume_known i pool w Hk) as (Hk1 & Hstep).
  destruct (resume_task i pool w) as [pool1 w1]; simpl in *.
  apply IH; [exact Hk1|].
  destruct Hstep as [[-> _] | [(audio & _ & -> & _) | (audio & tmp & r & _ & -> & _)]].
  - exact Hw.
  - apply stable_create_tempfile; assumption.
  - revert w Hw.
    apply stable_bind; [apply stable_store_upload | intros _; apply stable_transcribe_stored];
      assumption.
Qed.

Lemma loads_completed_count w env :
  loads_completed env w → length (load_calls (trace w)) = model_loads (trace w).
Proof.
  intros [_ Hc]. unfold load_calls, model_loads.
  induction (trace w) as [|ev tr IH]; [reflexivity|].
  assert (∀ name ok, In (EvLoadModel name ok) tr → ok = true) as Htr
    by (intros name ok Hin; apply (Hc name ok); right; exact Hin).
  simpl. destruct ev as [name ok| | |]; simpl; auto.
  rewrite (Hc name ok (or_introl eq_refl)). simpl. f_equal. auto.
Qed.

Lemma loads_completed_get_whisper_model env :
  loader_returns env → stable (loads_completed env) get_whisper_model.
Proof.
  intros Hl w [He Hc]. destruct (whisper_model w) as [m|] eqn:E.
  - rewrite (get_whisper_model_loaded _ _ E). split; assumption.
  - rewrite (get_whisper_model_first _ E). cbv zeta.
    specialize (Hl (ext w)). rewrite He.
    destruct (whisper_load_model _ _) as [[m|e] x]; [|discriminate Hl]. simpl.
    split; [exact He|].
    intros name ok Hin. apply in_app_iff in Hin as [Hin | [[= _ <-] | []]];
      [exact (Hc name ok Hin) | reflexivity].
Qed.

Lemma event_loop_loads_completed env schedule pool w :
  loader_returns env → Forall known_task pool →
  loads_completed env w → loads_completed env (snd (event_loop schedule pool w)).
Proof.
  intros Hl. apply event_loop_preserves.
  - intros fs n w0 Hw0. exact Hw0.
  - intros n w0 Hw0. exact Hw0.
  - intros x ev w0 Hev [He Hc]. split; [exact He|].
    intros name ok Hin. simpl in Hin. apply in_app_iff in Hin as [Hin | [-> | []]].
    + exact (Hc name ok Hin).
    + discriminate Hev.
  - apply loads_completed_get_whisper_model, Hl.
Qed.

Lemma os_unlink_keeps_handle path w :
  whisper_model (snd (os_unlink path w)) = whisper_model w.
Proof.
  unfold os_unlink, record_event.
  destruct (files w !! path); [destruct (decide _)|]; reflexivity.
Qed.

(** The first request to reach the model, with a loader that returns. *)
Lemma transcribe_stored_first_load env tmp w :
  loader_returns env → environ w = env →
  whisper_model w = None → load_calls (trace w) = [] →
  after_load env (snd (transcribe_stored tmp w)).
Proof.
  intros Hl He Hm Hc. rewrite transcribe_stored_run.
  assert (after_load env (snd (whisper_attempt tmp w))) as [Hloaded Hcalls].
  { rewrite whisper_attempt_run, (get_whisper_model_first _ Hm). cbv zeta.
    specialize (Hl (ext w)). rewrite He.
    destruct (whisper_load_model _ _) as [[m|e] x]; [|discriminate Hl].
    match goal with
    | |- context [whisper_transcribe m tmp ?fs ?x0] =>
        destruct (whisper_transcribe m tmp fs x0) as [[result|e] x1];
          [destruct (result !! "text")|]
    end; (split; [exists m; reflexivity|]); simpl;
      rewrite !load_calls_snoc, Hc; reflexivity. }
  destruct (os_unlink_spec tmp (snd (whisper_attempt tmp w))) as ([ok Ht] & _).
  pose proof (os_unlink_keeps_handle tmp (snd (whisper_attempt tmp w))) as Hh.
  destruct (os_unlink tmp (snd (whisper_attempt tmp w))) as [[u|e] w2]; simpl in *;
    (split; [unfold loaded; rewrite Hh; exact Hloaded|]);
    rewrite Ht, load_calls_snoc, Hcalls; reflexivity.
Qed.

Lemma create_tempfile_before_load env free tmp audio w :
  before_load env free tmp w → before_load env free tmp (snd (create_tempfile audio w)).
Proof.
  intros (Hm & Hc & Hf & He & Ht). unfold create_tempfile.
  destruct (negb _); [repeat split; assumption|].
  unfold NamedTemporaryFile.
  destruct (unused_name _ _ _ _) as [[name seq]|] eqn:Hn; simpl.
  - apply unused_name_fresh in Hn. repeat split; try assumption.
    simpl. rewrite lookup_insert_ne; [exact Ht | congruence].
  - repeat split; assumption.
Qed.

Lemma resumed_before_load env free tmp audio tmp' w :
  loader_returns env → before_load env free tmp w →
  before_load env free tmp (snd ((store_upload audio tmp';; transcribe_stored tmp') w)) ∨
  after_load env (snd ((store_upload audio tmp';; transcribe_stored tmp') w)).
Proof.
  intros Hl (Hm & Hc & Hf & He & Ht). rewrite run_bind, store_upload_run.
  destruct (_ <=? _)%nat.
  - right. apply transcribe_stored_first_load; assumption.
  - left. simpl. repeat split; assumption.
Qed.

Lemma resumed_reaches_load env free tmp audio w :
  loader_returns env → before_load env free tmp w →
  (length (file_content audio) ≤ free)%nat →
  after_load env (snd ((store_upload audio tmp;; transcribe_stored tmp) w)).
Proof.
  intros Hl (Hm & Hc & Hf & He & Ht) Hle. rewrite run_bind, store_upload_run.
  rewrite Hf. apply Nat.leb_le in Hle. rewrite Hle.
  apply transcribe_stored_first_load; assumption.
Qed.

Lemma event_loop_after_load env schedule pool w :
  Forall known_task pool → after_load env w →
  after_load env (snd (event_loop schedule pool w)).
Proof.
  intros Hk [Hl Hc].
  assert (pool_ok pool w) as Hp.
  { split.
    - eapply Forall_impl; [exact Hk | exact known_task_ok].
    - eapply Forall_impl; [exact Hk|]. intros c _ _. exact Hl. }
  destruct (event_loop_ok schedule pool w Hp) as (_ & _ & Hkeep).
  destruct (Hkeep Hl) as [Hl' Hc']. split; [exact Hl' | congruence].
Qed.

(** A suspended task that fits on the disk and is resumed again brings the
    one load about, if no other task did before. *)
Lemma event_loop_reaches_load env free tmp audio i schedule pool w :
  loader_returns env →
  (length (file_content audio) ≤ free)%nat →
  Forall known_task pool →
  pool !! i = Some (resumed_task audio tmp) →
  before_load env free tmp w →
  In i schedule →
  after_load env (snd (event_loop schedule pool w)).
Proof.
  intros Hl Hle. revert pool w.
  induction schedule as [|j rest IH]; intros pool w Hk Hi Hw Hin; [destruct Hin|].
  simpl.
  destruct (resume_known j pool w Hk) as (Hk1 & Hstep).
  destruct (resume_task j pool w) as [pool1 w1] eqn:Hr; simpl in *.
  destruct (decide (j = i)) as [-> | Hne].
  - apply event_loop_after_load; [exact Hk1|].
    rewrite (resume_task_at _ _ _ _ Hi) in Hr. unfold resumed_task in Hr.
    injection Hr as _ <-.
    destruct (resumed_task_run audio tmp w) as [r ->]. simpl.
    eapply resumed_reaches_load; eassumption.
  - assert (In i rest) as Hin' by (destruct Hin as [-> | Hin]; [contradiction | exact Hin]).
    destruct Hstep as [[-> ->] | [(audio' & Hj & -> & ->) | (audio' & tmp' & r & Hj & -> & ->)]].
    + exact (IH pool w Hk Hi Hw Hin').
    + apply IH; [exact Hk1 | | | exact Hin'].
      * rewrite list_lookup_insert_ne by exact Hne. exact Hi.
      * apply create_tempfile_before_load, Hw.
    + destruct (resumed_before_load env free tmp audio' tmp' w Hl Hw) as [Hw1 | Hw1].
      * apply IH; [exact Hk1 | | exact Hw1 | exact Hin'].
        rewrite list_lookup_insert_ne by exact Hne. exact Hi.
      * apply event_loop_after_load; assumption.
Qed.

Lemma create_tempfile_returned audio w tmp w1 :
  create_tempfile audio w = (Returned tmp, w1) →
  whisper_model w1 = whisper_model w ∧ trace w1 = trace w ∧
  free_space w1 = free_space w ∧ environ w1 = environ w ∧
  files w1 !! tmp = Some [].
Proof.
  unfold create_tempfile. destruct (negb _); [discriminate|].
  unfold NamedTemporaryFile.
  destruct (unused_name _ _ _ _) as [[name seq]|]; [|discriminate].
  intros [= <- <-]. simpl. repeat split. apply lookup_insert_eq.
Qed.

Lemma no_load_calls_completed w :
  load_calls (trace w) = [] → loads_completed (environ w) w.
Proof.
  intros Hc. split; [reflexivity|]. intros name ok Hin.
  assert (In (EvLoadModel name ok) (load_calls (trace w))) as Hin'
    by (apply List.filter_In; split; [exact Hin | reflexivity]).
  rewrite Hc in Hin'. destruct Hin'.
Qed.

Lemma known_fresh_pool (audios : list UploadFile) :
  Forall known_task (transcribe_audio_task <$> audios).
Proof. apply Forall_fmap, Forall_forall. intros audio _. constructor. Qed.

Lemma event_loop_first_resume i rest (pool : list (coroutine TranscribeResponse))
    audio w tmp w1 :
  pool !! i = Some (transcribe_audio_task audio) →
  create_tempfile audio w = (Returned tmp, w1) →
  event_loop (i :: rest) pool w
  = event_loop rest (<[i := resumed_task audio tmp]> pool) w1.
Proof.
  intros Hi Hct. cbn [event_loop]. rewrite (resume_task_at _ _ _ _ Hi).
  unfold transcribe_audio_task. cbv beta. rewrite Hct. reflexivity.
Qed.

(** C6. However the event loop interleaves the [/transcribe] requests that
    arrive before the model is loaded, at most one load completes; a load
    has completed exactly when the handle is set, which every answered
    request found; and from the moment the handle is set [load_model] is
    not called again.  With a loader that returns, [load_model] is called
    at most once whatever the schedule, and exactly once, and the model
    is loaded, as soon as the request that starts first has a filename, a
    temporary file and room for its upload, and is resumed again. *)
Theorem concurrent_first_calls_load_once (audios : list UploadFile)
    (schedule : list nat) (w : World) :
  whisper_model w = None →
  model_loads (trace w) = 0%nat →
  let tasks := transcribe_audio_task <$> audios in
  let run := event_loop schedule tasks w in
  (model_loads (trace (snd run)) ≤ 1)%nat ∧
  (loaded (snd run) ↔ model_loads (trace (snd run)) = 1%nat) ∧
  (∀ c, c ∈ fst run → answered c = true → model_loads (trace (snd run)) = 1%nat) ∧
  (∀ s1 s2, schedule = s1 ++ s2 →
     loaded (snd (event_loop s1 tasks w)) →
     load_calls (trace (snd run)) = load_calls (trace (snd (event_loop s1 tasks w)))) ∧
  (loader_returns (environ w) → load_calls (trace w) = [] →
   (length (load_calls (trace (snd run))) ≤ 1)%nat) ∧
  (loader_returns (environ w) → load_calls (trace w) = [] →
   ∀ i rest audio,
     schedule = i :: rest → In i rest →
     audios !! i = Some audio →
     is_returned (fst (create_tempfile audio w)) = true →
     (length (file_content audio) ≤ free_space w)%nat →
     loaded (snd run) ∧
     load_calls (trace (snd run))
     = [EvLoadModel (default "base" (environ w !! "WHISPER_MODEL")) true]).
Proof.
  intros E Z tasks run.
  assert (load_invariant w) as Hw by (unfold load_invariant; rewrite E; exact Z).
  destruct (event_loop_ok schedule tasks w (fresh_pool_ok audios w)) as ([_ Hans] & Hinv & _).
  fold run in Hans, Hinv. specialize (Hinv Hw).
  assert (loaded (snd run) ↔ model_loads (trace (snd run)) = 1%nat) as Hiff.
  { unfold load_invariant, loaded in *.
    destruct (whisper_model (snd run)) as [m|]; split; intros Hl; try lia.
    - eauto.
    - destruct Hl as [m Hm]. discriminate Hm. }
  split; [apply load_invariant_at_most_one, Hinv|].
  split; [exact Hiff|].
  split.
  { intros c Hc Ha. rewrite Forall_forall in Hans. apply Hiff, (Hans c Hc Ha). }
  split.
  { intros s1 s2 -> Hmid. unfold run. rewrite event_loop_app.
    destruct (event_loop_ok s1 tasks w (fresh_pool_ok audios w)) as (Hp1 & _ & _).
    destruct (event_loop_ok s2 _ _ Hp1) as (_ & _ & Hl).
    apply Hl, Hmid. }
  split.
  { intros Hl Hc.
    rewrite (loads_completed_count _ (environ w)).
    - apply load_invariant_at_most_one, Hinv.
    - apply event_loop_loads_completed;
        [exact Hl | apply known_fresh_pool | apply no_load_calls_completed, Hc]. }
  intros Hl Hc i rest audio -> Hin Hi Hcreate Hfit.
  assert (tasks !! i = Some (transcribe_audio_task audio)) as Hti
    by (unfold tasks; rewrite list_lookup_fmap, Hi; reflexivity).
  destruct (create_tempfile audio w) as [[tmp|e] w1] eqn:Hct; [|discriminate Hcreate].
  destruct (create_tempfile_returned _ _ _ _ Hct) as (Hm1 & Ht1 & Hf1 & He1 & Hfile).
  unfold run. rewrite (event_loop_first_resume _ _ _ _ _ _ _ Hti Hct).
  apply (event_loop_reaches_load (environ w) (free_space w) tmp audio i).
  - exact Hl.
  - exact Hfit.
  - apply Forall_insert; [apply known_fresh_pool | constructor].
  - apply list_lookup_insert_eq. eapply lookup_lt_Some, Hti.
  - repeat split; congruence.
  - exact Hin.
Qed.

End Properties.

(** * The handlers on explicit inputs *)

Module Runs.
Import Demo.

Lemma prompt_selection_witness :
  ("translate" ∉ dom prompts) ∧
  @select_prompt platform "translate" (boot platform 0%nat with_key)
  = @select_prompt platform "cleanup" (boot platform 0%nat with_key).
Proof.
  destruct (@prompt_selection platform "translate" (boot platform 0%nat with_key))
    as (_ & Hdom & _ & _ & _ & _ & Hother).
  assert ("translate" ∉ dom prompts) as Hno.
  { rewrite Hdom, !elem_of_union, !elem_of_singleton.
    intros [[[E|E]|E]|E]; discriminate E. }
  split; [exact Hno | exact (proj1 (Hother Hno))].
Defined.

Lemma enhance_text_remote_call_witness :
  opt_truthy (environ (boot platform 0%nat with_key) !! "ANTHROPIC_API_KEY") = true ∧
  trace (snd (@enhance_text platform {| text := "um hello"; task := "summarize" |}
                (boot platform 0%nat with_key)))
  = [EvMessagesCreate
       {| model := "claude-opus-4-5-20250514";
          max_tokens := 1024;
          messages :=
            [ {| role := "user";
                 content :=
                   "Summarize this transcribed speech concisely, capturing the key points:"
                   +:+ nl +:+ nl +:+ "um hello" |} ] |}] ∧
  fst (@enhance_text platform {| text := "um hello"; task := "summarize" |}
         (boot platform 0%nat with_key))
  = Returned
      {| en_success := true;
         en_original := "um hello";
         en_enhanced :=
           "Reply to: Summarize this transcribed speech concisely, capturing the key points:"
           +:+ nl +:+ nl +:+ "um hello";
         en_task := "summarize" |}.
Proof.
  split; [reflexivity|].
  destruct (@enhance_text_remote_call platform
              {| text := "um hello"; task := "summarize" |}
              (boot platform 0%nat with_key))
    as (instruction & Hsel & _ & Hkey & _ & Hreply).
  injection Hsel as <-.
  split; [exact (Hkey eq_refl)|].
  rewrite (Hreply _ 1%nat _ [] eq_refl eq_refl eq_refl). reflexivity.
Defined.

Lemma enhance_text_echoes_request_witness :
  ∃ body w',
    @enhance_text platform {| text := "um hello"; task := "translate" |}
      (boot platform 0%nat with_key) = (Returned body, w') ∧
    en_original body = "um hello" ∧ en_task body = "translate".
Proof.
  eexists _, _. split; [vm_compute; reflexivity|].
  eapply (@enhance_text_echoes_request platform
            {| text := "um hello"; task := "translate" |}
            (boot platform 0%nat with_key)).
  vm_compute. reflexivity.
Defined.

Lemma enhance_text_without_credential_witness :
  let P := platform_refusing "Connection error." in
  let request := {| text := "um hello"; task := "summarize" |} in
  opt_truthy (environ (boot P 0%nat no_key) !! "ANTHROPIC_API_KEY") = false ∧
  @enhance_text P request (boot P 0%nat no_key)
  = (Raised (HTTPException 500
       "Enhancement failed: 500: ANTHROPIC_API_KEY not configured"),
     boot P 0%nat no_key) ∧
  fst (@enhance_text P request (boot P 0%nat with_key))
  = Raised (HTTPException 500 "Enhancement failed: Connection error.") ∧
  fst (@enhance_text P request (boot P 0%nat with_key))
  ≠ fst (@enhance_text P request (boot P 0%nat no_key)).
Proof.
  intros P request.
  destruct (@enhance_text_without_credential P request (boot P 0%nat no_key) eq_refl)
    as (Hconf & _ & _ & Hapi).
  destruct (Hapi request (boot P 0%nat with_key) (LibraryError "Connection error.")
              1%nat eq_refl eq_refl) as (Hfail & Hdiff).
  split; [reflexivity|]. split; [exact Hconf|].
  split; [rewrite Hfail; reflexivity|].
  apply Hdiff. intros Heq. vm_compute in Heq. discriminate Heq.
Defined.

Lemma transcribe_audio_without_filename_witness :
  opt_truthy (filename {| filename := None; file_content := hello |}) = false ∧
  @transcribe_audio platform {| filename := None; file_content := hello |}
    (boot platform 0%nat no_key)
  = (Raised (HTTPException 400 "No audio file provided"), boot platform 0%nat no_key).
Proof.
  split; [reflexivity|].
  exact (proj1 (@transcribe_audio_without_filename platform
                  {| filename := None; file_content := hello |}
                  (boot platform 0%nat no_key) eq_refl)).
Defined.

Lemma transcribe_and_enhance_composes_witness :
  ∃ body w',
    @transcribe_and_enhance platform (upload "rec.mp3") "summarize"
      (boot platform 0%nat with_key) = (Returned body, w') ∧
    ∃ tr w1 en,
      @transcribe_audio platform (upload "rec.mp3") (boot platform 0%nat with_key)
        = (Returned tr, w1) ∧
      @enhance_text platform {| text := tr_text tr; task := "summarize" |} w1
        = (Returned en, w') ∧
      co_raw_transcription body = tr_text tr ∧
      co_enhanced_text body = en_enhanced en ∧
      co_language body = tr_language tr ∧
      co_task body = "summarize".
Proof.
  eexists _, _. split; [vm_compute; reflexivity|].
  apply (@transcribe_and_enhance_composes platform).
  vm_compute. reflexivity.
Defined.

Lemma whisper_model_loaded_once_witness :
  let w := boot platform 0%nat no_key in
  let rqs := [PostTranscribe (upload "a.wav"); GetRoot; PostTranscribe (upload "b.mp3")] in
  whisper_model w = None ∧ model_loads (trace w) = 0%nat ∧
  (model_loads (trace (snd (serve rqs w))) ≤ 1)%nat.
Proof.
  intros w rqs. split; [reflexivity|]. split; [reflexivity|].
  destruct (@whisper_model_loaded_once platform w) as (_ & _ & _ & Hmost).
  exact (Hmost rqs eq_refl eq_refl).
Defined.

Lemma concurrent_first_calls_load_once_witness :
  let w := boot platform 0%nat no_key in
  let audios := [upload "a.wav"; upload "b.mp3"] in
  let run := event_loop [0; 1; 1; 0]%nat (transcribe_audio_task <$> audios) w in
  whisper_model w = None ∧ model_loads (trace w) = 0%nat ∧
  @loader_returns platform (environ w) ∧
  is_returned (fst (@create_tempfile platform (upload "a.wav") w)) = true ∧
  (length (file_content (upload "a.wav")) ≤ free_space w)%nat ∧
  loaded (snd run) ∧
  load_calls (trace (snd run)) = [EvLoadModel "base" true].
Proof.
  intros w audios run.
  assert (@loader_returns platform (environ w)) as Hl by (intros x; reflexivity).
  assert (is_returned (fst (@create_tempfile platform (upload "a.wav") w)) = true) as Hc
    by (vm_compute; reflexivity).
  assert (length (file_content (upload "a.wav")) ≤ free_space w)%nat as Hfit
    by (apply Nat.leb_le; vm_compute; reflexivity).
  split; [reflexivity|]. split; [reflexivity|]. split; [exact Hl|].
  split; [exact Hc|]. split; [exact Hfit|].
  destruct (@concurrent_first_calls_load_once platform audios [0; 1; 1; 0]%nat w
              eq_refl eq_refl)
    as (_ & _ & _ & _ & _ & Hexact).
  exact (Hexact Hl eq_refl 0%nat [1; 1; 0]%nat (upload "a.wav") eq_refl
           (or_intror (or_intror (or_introl eq_refl))) eq_refl Hc Hfit).
Defined.

(** Two uploads suspended at [await audio.read()] before either reaches the
    model: both are answered, and the model was loaded once. *)
Example two_first_callers_one_load :
  let w := boot platform 0%nat no_key in
  let run := event_loop [0; 1; 1; 0]%nat
               (transcribe_audio_task <$> [upload "a.wav"; upload "b.mp3"]) w in
  forallb answered (fst run) = true ∧
  load_calls (trace (snd run)) = [EvLoadModel "base" true] ∧
  files (snd run) = ∅.
Proof. vm_compute. repeat split. Qed.

Lemma unlink_failure_replaces_outcome_witness :
  let w := boot_locked no_key in
  let audio := upload "rec" in
  let tmp := "/tmp/tmp0.wav" in
  let w0 := snd (@save_upload platform audio w) in
  let r0 := Returned {| tr_success := true; tr_text := "hello world"; tr_language := "en" |} in
  let w1 := snd (@whisper_attempt platform tmp w0) in
  @save_upload platform audio w = (Returned tmp, w0) ∧
  @whisper_attempt platform tmp w0 = (r0, w1) ∧
  tmp ∈ locked w ∧
  fst (@transcribe_audio platform audio w)
    = Raised (OSError 13 "Permission denied" (Some tmp)).
Proof.
  intros w audio tmp w0 r0 w1.
  assert (@save_upload platform audio w = (Returned tmp, w0)) as Hs
    by (vm_compute; reflexivity).
  assert (@whisper_attempt platform tmp w0 = (r0, w1)) as Ha
    by (vm_compute; reflexivity).
  assert (tmp ∈ locked w) as L by (apply elem_of_singleton; reflexivity).
  split; [exact Hs|]. split; [exact Ha|]. split; [exact L|].
  destruct (@unlink_failure_replaces_outcome platform audio w w0 w1 tmp r0 Hs Ha)
    as (_ & _ & _ & Hlocked).
  exact (Hlocked L).
Defined.

(** C1 fails as stated: the transcription had settled on a response, the
    unlink of the temporary file is refused, and the caller gets the
    unlink's [PermissionError], a 500, instead of the response. *)
Lemma unlink_failure_masks_response :
  let w := boot_locked no_key in
  let audio := upload "rec" in
  let tmp := "/tmp/tmp0.wav" in
  let settled := @whisper_attempt platform tmp (snd (@save_upload platform audio w)) in
  fst (@save_upload platform audio w) = Returned tmp ∧
  fst settled
    = Returned {| tr_success := true; tr_text := "hello world"; tr_language := "en" |} ∧
  fst (@os_unlink platform tmp (snd settled))
    = Raised (OSError 13 "Permission denied" (Some tmp)) ∧
  fst (@transcribe_audio platform audio w)
    = Raised (OSError 13 "Permission denied" (Some tmp)) ∧
  http_status (fst (@transcribe_audio platform audio w)) = 500.
Proof. vm_compute. repeat split. Qed.

(** The same with a transcription that failed: its 500 and its detail are
    lost to the unlink's exception. *)
Example unlink_failure_masks_transcription_error :
  let w := boot_locked no_key in
  let audio := {| filename := Some "rec"; file_content := [] |} in
  let tmp := "/tmp/tmp0.wav" in
  let settled := @whisper_attempt platform tmp (snd (@save_upload platform audio w)) in
  fst settled
    = Raised (HTTPException 500 "Transcription failed: Failed to load audio") ∧
  fst (@transcribe_audio platform audio w)
    = Raised (OSError 13 "Permission denied" (Some tmp)).
Proof. vm_compute. repeat split. Qed.

Lemma tempfile_removed_unless_unlink_fails_witness :
  let w := boot platform 0%nat no_key in
  let audio := upload "rec.mp3" in
  let tmp := "/tmp/tmp0.mp3" in
  @save_upload platform audio w = (Returned tmp, snd (@save_upload platform audio w)) ∧
  (tmp ∉ locked w) ∧
  files (snd (@transcribe_audio platform audio w)) !! tmp = None.
Proof.
  intros w audio tmp.
  assert (@save_upload platform audio w
          = (Returned tmp, snd (@save_upload platform audio w))) as Hs
    by (vm_compute; reflexivity).
  assert (tmp ∉ locked w) as NL by apply not_elem_of_empty.
  split; [exact Hs|]. split; [exact NL|].
  destruct (@tempfile_removed_unless_unlink_fails platform audio w _ tmp Hs)
    as (_ & _ & Hgone).
  exact (Hgone NL).
Defined.

(** C5 fails as stated: the request created and stored its temporary file,
    the handler has returned, and the file is still on disk, because the
    unlink was refused. *)
Lemma locked_tempfile_survives :
  let w := boot_locked no_key in
  let audio := upload "rec" in
  let tmp := "/tmp/tmp0.wav" in
  files w !! tmp = None ∧
  fst (@save_upload platform audio w) = Returned tmp ∧
  files (snd (@transcribe_audio platform audio w)) !! tmp = Some hello.
Proof. vm_compute. repeat split. Qed.

(** Outside the [try]: when storing the upload fails, the file that
    [NamedTemporaryFile] created stays behind and no unlink is attempted. *)
Remark tempfile_left_when_write_fails :
  let w := boot_full no_key in
  let audio := upload "rec" in
  fst (@transcribe_audio platform audio w)
    = Raised (OSError 28 "No space left on device" None) ∧
  files (snd (@transcribe_audio platform audio w)) !! "/tmp/tmp0.wav" = Some [] ∧
  trace (snd (@transcribe_audio platform audio w)) = [].
Proof. vm_compute. repeat split. Qed.

(** ** Further runs *)

Lemma transcribe_audio_response_witness :
  ∃ body w',
    @transcribe_audio platform (upload "rec.mp3") (boot platform 0%nat no_key)
      = (Returned body, w') ∧
    ∃ tmp m fs x0 result x,
      fs !! tmp = Some hello ∧
      @whisper_transcribe platform m tmp fs x0 = (Returned result, x) ∧
      whisper_model w' = Some m ∧
      tr_success body = true ∧
      result !! "text" = Some (tr_text body) ∧
      tr_language body = default "unknown" (result !! "language").
Proof.
  eexists _, _. split; [vm_compute; reflexivity|].
  apply (@transcribe_audio_response platform (upload "rec.mp3")
           (boot platform 0%nat no_key)).
  vm_compute. reflexivity.
Defined.

Lemma load_failure_is_reported_witness :
  let w := boot platform 0%nat {[ "WHISPER_MODEL" := "bogus" ]} in
  let audio := upload "rec.mp3" in
  let tmp := "/tmp/tmp0.mp3" in
  @save_upload platform audio w = (Returned tmp, snd (@save_upload platform audio w)) ∧
  whisper_model w = None ∧
  @whisper_load_model platform (default "base" (environ w !! "WHISPER_MODEL")) (ext w)
    = (Raised (LibraryError "Model bogus not found"), 1%nat) ∧
  (tmp ∉ locked w) ∧
  fst (@transcribe_audio platform audio w)
    = Raised (HTTPException 500 "Transcription failed: Model bogus not found").
Proof.
  intros w audio tmp.
  assert (@save_upload platform audio w
          = (Returned tmp, snd (@save_upload platform audio w))) as Hs
    by (vm_compute; reflexivity).
  assert (@whisper_load_model platform
            (default "base" (environ w !! "WHISPER_MODEL")) (ext w)
          = (Raised (LibraryError "Model bogus not found"), 1%nat)) as Hl
    by (vm_compute; reflexivity).
  assert (tmp ∉ locked w) as NL by apply not_elem_of_empty.
  split; [exact Hs|]. split; [reflexivity|]. split; [exact Hl|]. split; [exact NL|].
  exact (proj1 (@load_failure_is_reported platform audio w _ tmp _ _ Hs eq_refl Hl NL)).
Defined.

Lemma transcription_error_is_reported_witness :
  let w := boot_loaded platform "base" 0%nat ∅ in
  let audio := {| filename := Some "rec.mp3"; file_content := [] |} in
  let tmp := "/tmp/tmp0.mp3" in
  @save_upload platform audio w = (Returned tmp, snd (@save_upload platform audio w)) ∧
  whisper_model w = Some "base" ∧
  @whisper_transcribe platform "base" tmp (<[tmp := []]> (files w)) (ext w)
    = (Raised (LibraryError "Failed to load audio"), 1%nat) ∧
  (tmp ∉ locked w) ∧
  fst (@transcribe_audio platform audio w)
    = Raised (HTTPException 500 "Transcription failed: Failed to load audio") ∧
  whisper_model (snd (@transcribe_audio platform audio w)) = Some "base".
Proof.
  intros w audio tmp.
  assert (@save_upload platform audio w
          = (Returned tmp, snd (@save_upload platform audio w))) as Hs
    by (vm_compute; reflexivity).
  assert (@whisper_transcribe platform "base" tmp (<[tmp := []]> (files w)) (ext w)
          = (Raised (LibraryError "Failed to load audio"), 1%nat)) as Hr
    by (vm_compute; reflexivity).
  assert (tmp ∉ locked w) as NL by apply not_elem_of_empty.
  split; [exact Hs|]. split; [reflexivity|]. split; [exact Hr|]. split; [exact NL|].
  destruct (@transcription_error_is_reported platform audio w _ tmp "base" _ _
              Hs eq_refl Hr NL) as (H1 & H2 & _).
  split; [exact H1 | exact H2].
Defined.

Lemma result_without_text_is_reported_witness :
  let P := platform_transcribing {[ "language" := "en" ]} in
  let w := boot P 0%nat no_key in
  let audio := upload "rec.mp3" in
  let tmp := "/tmp/tmp0.mp3" in
  let w0 := snd (@save_upload P audio w) in
  let w1 := snd (@get_whisper_model P w0) in
  @save_upload P audio w = (Returned tmp, w0) ∧
  @get_whisper_model P w0 = (Returned "base", w1) ∧
  @whisper_transcribe P "base" tmp (files w1) (ext w1)
    = (Returned {[ "language" := "en" ]}, 2%nat) ∧
  ({[ "language" := "en" ]} : gmap string string) !! "text" = None ∧
  (tmp ∉ locked w) ∧
  fst (@transcribe_audio P audio w)
    = Raised (HTTPException 500 "Transcription failed: 'text'").
Proof.
  intros P w audio tmp w0 w1.
  assert (@save_upload P audio w = (Returned tmp, w0)) as Hs
    by (vm_compute; reflexivity).
  assert (@get_whisper_model P w0 = (Returned "base", w1)) as Hg
    by (vm_compute; reflexivity).
  assert (@whisper_transcribe P "base" tmp (files w1) (ext w1)
          = (Returned {[ "language" := "en" ]}, 2%nat)) as Hr
    by (vm_compute; reflexivity).
  assert (({[ "language" := "en" ]} : gmap string string) !! "text" = None) as Hno
    by (vm_compute; reflexivity).
  assert (tmp ∉ locked w) as NL by apply not_elem_of_empty.
  split; [exact Hs|]. split; [exact Hg|]. split; [exact Hr|].
  split; [exact Hno|]. split; [exact NL|].
  exact (proj1 (@result_without_text_is_reported P audio w w0 w1 tmp "base"
                  {[ "language" := "en" ]} 2%nat Hs Hg Hr Hno NL)).
Defined.

Lemma transcribe_audio_spares_files_witness :
  let w := boot_loaded platform "base" 0%nat {[ "/tmp/tmp0.mp3" := hello ]} in
  is_Some (files w !! "/tmp/tmp0.mp3") ∧
  files (snd (@transcribe_audio platform (upload "rec.mp3") w)) !! "/tmp/tmp0.mp3"
    = Some hello.
Proof.
  intros w.
  assert (is_Some (files w !! "/tmp/tmp0.mp3")) as Hp
    by (exists hello; vm_compute; reflexivity).
  split; [exact Hp|].
  rewrite (proj1 (@transcribe_audio_spares_files platform (upload "rec.mp3") w _) Hp).
  vm_compute. reflexivity.
Defined.

Lemma transcribe_audio_restores_disk_witness :
  let w := boot_loaded platform "base" 0%nat ∅ in
  loaded w ∧
  is_returned (fst (@transcribe_audio platform (upload "rec.mp3") w)) = true ∧
  files (snd (@transcribe_audio platform (upload "rec.mp3") w)) = files w ∧
  free_space (snd (@transcribe_audio platform (upload "rec.mp3") w)) = free_space w.
Proof.
  intros w.
  assert (loaded w) as Hl by (exists "base"; reflexivity).
  assert (is_returned (fst (@transcribe_audio platform (upload "rec.mp3") w)) = true)
    as Hr by (vm_compute; reflexivity).
  split; [exact Hl|]. split; [exact Hr|].
  exact (@transcribe_audio_restores_disk platform (upload "rec.mp3") w Hl (or_introl Hr)).
Defined.

Lemma unreadable_reply_is_reported_witness :
  let P := platform_replying [] in
  let w := boot P 0%nat with_key in
  let request := {| text := "um hello"; task := "format" |} in
  opt_truthy (environ w !! "ANTHROPIC_API_KEY") = true ∧
  fst (@enhance_text P request w)
    = Raised (HTTPException 500 "Enhancement failed: list index out of range").
Proof.
  intros P w request. split; [reflexivity|].
  destruct (@unreadable_reply_is_reported P request w {| message_content := [] |} 1%nat
              eq_refl eq_refl) as (_ & Hempty & _).
  exact (Hempty eq_refl).
Defined.

Lemma transcribe_and_enhance_stops_at_transcription_error_witness :
  let w := boot platform 0%nat with_key in
  let audio := {| filename := Some ""; file_content := hello |} in
  @transcribe_audio platform audio w
    = (Raised (HTTPException 400 "No audio file provided"), w) ∧
  @transcribe_and_enhance platform audio "summarize" w
    = (Raised (HTTPException 400 "No audio file provided"), w).
Proof.
  intros w audio.
  assert (@transcribe_audio platform audio w
          = (Raised (HTTPException 400 "No audio file provided"), w)) as Htr
    by reflexivity.
  split; [exact Htr|].
  exact (proj1 (@transcribe_and_enhance_stops_at_transcription_error platform
                  audio "summarize" w w _ Htr)).
Defined.

Lemma transcribe_and_enhance_discards_transcript_witness :
  let P := platform_refusing "Connection error." in
  let w := boot P 0%nat with_key in
  let tr := {| tr_success := true; tr_text := "hello world"; tr_language := "en" |} in
  let w1 := snd (@transcribe_audio P (upload "rec.mp3") w) in
  let e := HTTPException 500 "Enhancement failed: Connection error." in
  @transcribe_audio P (upload "rec.mp3") w = (Returned tr, w1) ∧
  fst (@enhance_text P {| text := "hello world"; task := "summarize" |} w1) = Raised e ∧
  fst (@transcribe_and_enhance P (upload "rec.mp3") "summarize" w) = Raised e.
Proof.
  intros P w tr w1 e.
  assert (@transcribe_audio P (upload "rec.mp3") w = (Returned tr, w1)) as Htr
    by (vm_compute; reflexivity).
  assert (@enhance_text P {| text := tr_text tr; task := "summarize" |} w1
          = (Raised e, snd (@enhance_text P {| text := tr_text tr; task := "summarize" |} w1)))
    as Hen by (vm_compute; reflexivity).
  split; [exact Htr|]. split; [vm_compute; reflexivity|].
  destruct (@transcribe_and_enhance_discards_transcript P (upload "rec.mp3") "summarize"
              w w1 _ tr e Htr Hen) as (Hc & _).
  rewrite Hc. reflexivity.
Defined.

Lemma transcribe_and_enhance_sends_transcript_witness :
  ∃ body w',
    @transcribe_and_enhance platform (upload "rec.mp3") "summarize"
      (boot platform 0%nat with_key) = (Returned body, w') ∧
    last (trace w')
      = Some (EvMessagesCreate
                (enhance_call {| text := co_raw_transcription body; task := "summarize" |})).
Proof.
  eexists _, _. split; [vm_compute; reflexivity|].
  eapply (@transcribe_and_enhance_sends_transcript platform (upload "rec.mp3")
            "summarize" (boot platform 0%nat with_key)).
  vm_compute. reflexivity.
Defined.

(** A setting as an operator might write it: the blank after the comma and
    the trailing comma both show in the origins. *)
Example allowed_origins_as_written :
  ALLOWED_ORIGINS {[ "ALLOWED_ORIGINS" := "https://a.example, https://b.example," ]}
  = ["https://a.example"; " https://b.example"; ""].
Proof. vm_compute. reflexivity. Qed.

End Runs.
